(** * Atomic Chess rules engine (ChessVar.py): shallow embedding and properties

    The class [ChessVar] keeps three fields: [_board], an 8x8 list of lists of
    one-character strings, [_turn] and [_game_state].  Board cells are modelled
    as [ascii] characters, the board as [list (list ascii)] with Python's list
    indexing (negative indices wrap, anything else out of range raises
    [IndexError]), the two string-valued fields as enumerations.  Methods that
    only read [self] are functions returning a [res]; methods that assign to
    [self] thread the [game] record through the state-and-exception monad [M].
    Notation strings are [string]s of 8-bit characters. *)

From Stdlib Require Import ZArith Lia Ascii String List Bool.
From stdpp Require Import base list strings.

Local Open Scope Z_scope.

(** ** Outcomes of Python code *)

Inductive exn : Type := ValueError | IndexError.

(** [OutOfFuel] is the outcome of a [while] loop that has not finished within
    the iterations granted to it; see [loop_fuel]. *)
Inductive res (A : Type) : Type :=
| Ret (a : A)
| Raise (e : exn)
| OutOfFuel.
Arguments Ret {A} a.
Arguments Raise {A} e.
Arguments OutOfFuel {A}.

Definition rbind {A B} (m : res A) (k : A -> res B) : res B :=
  match m with
  | Ret a => k a
  | Raise e => Raise e
  | OutOfFuel => OutOfFuel
  end.

Notation "'let*' x ':=' m 'in' k" := (rbind m (fun x => k))
  (at level 10, x name, m at level 100, k at level 200).
Notation "'let*' ' p ':=' m 'in' k" := (rbind m (fun x => let 'p := x in k))
  (at level 10, p pattern, m at level 100, k at level 200).

(** ** Python list indexing *)

Definition py_norm (n i : Z) : option nat :=
  if (0 <=? i) && (i <? n) then Some (Z.to_nat i)
  else if (- n <=? i) && (i <? 0) then Some (Z.to_nat (n + i))
  else None.

(** [l[i]] *)
Definition py_index {A} (l : list A) (i : Z) : res A :=
  match py_norm (Z.of_nat (length l)) i with
  | Some k => match l !! k with Some x => Ret x | None => Raise IndexError end
  | None => Raise IndexError
  end.

(** [l[i] = x] *)
Definition py_setitem {A} (l : list A) (i : Z) (x : A) : res (list A) :=
  match py_norm (Z.of_nat (length l)) i with
  | Some k => Ret (<[k := x]> l)
  | None => Raise IndexError
  end.

(** ** Characters *)

Definition ord (c : ascii) : Z := Z.of_N (N_of_ascii c).

Definition isupper (c : ascii) : bool := (ord "A" <=? ord c) && (ord c <=? ord "Z").
Definition islower (c : ascii) : bool := (ord "a" <=? ord c) && (ord c <=? ord "z").
Definition upper (c : ascii) : ascii :=
  if islower c then ascii_of_N (N_of_ascii c - 32) else c.

(** [c in s] for a one-character [c] *)
Definition char_in (c : ascii) (s : string) : bool :=
  existsb (Ascii.eqb c) (list_ascii_of_string s).

(** [int(c)] for a one-character string *)
Definition py_int (c : ascii) : res Z :=
  if (ord "0" <=? ord c) && (ord c <=? ord "9") then Ret (ord c - ord "0")
  else Raise ValueError.

(** ** The game record *)

Inductive color : Type := WHITE | BLACK.
Inductive outcome : Type := UNFINISHED | WHITE_WON | BLACK_WON.

Definition color_eqb (a b : color) : bool :=
  match a, b with WHITE, WHITE | BLACK, BLACK => true | _, _ => false end.
Definition outcome_eqb (a b : outcome) : bool :=
  match a, b with
  | UNFINISHED, UNFINISHED | WHITE_WON, WHITE_WON | BLACK_WON, BLACK_WON => true
  | _, _ => false
  end.

Abbreviation board_t := (list (list ascii)).

Record game : Type := Game {
  board : board_t;
  turn : color;
  game_state : outcome
}.

Definition initialize_board : board_t :=
  map list_ascii_of_string
    ["rnbqkbnr"; "pppppppp"; "        "; "        ";
     "        "; "        "; "PPPPPPPP"; "RNBQKBNR"]%string.

(** [__init__] *)
Definition init : game :=
  {| board := initialize_board; turn := WHITE; game_state := UNFINISHED |}.

Definition get_game_state (g : game) : outcome := game_state g.

(** [b[r][c]] *)
Definition getitem2 (b : board_t) (r c : Z) : res ascii :=
  let* row := py_index b r in py_index row c.

(** [b[r][c] = x]: the row object is fetched, then updated in place *)
Definition setitem2 (b : board_t) (r c : Z) (x : ascii) : res board_t :=
  let* row := py_index b r in
  let* row' := py_setitem row c x in
  py_setitem b r row'.

(** ** _convert_to_indices *)

Definition convert_to_indices (position : string) : res (Z * Z) :=
  match position with
  | String col (String row EmptyString) =>
      let* n := py_int row in Ret (8 - n, ord col - ord "a")
  | _ => Raise ValueError
  end.

(** ** _is_valid_bishop_rook_queen_move *)

Definition loop_fuel : nat := 16.

Definition is_blank (x : ascii) : bool := Ascii.eqb x " ".

(** The three [while] loops; each stands for the loop and the [return True]
    that follows it. *)
Fixpoint diag_loop (fuel : nat) (b : board_t)
    (current_row current_col end_row end_col row_step col_step : Z) : res bool :=
  match fuel with
  | O => OutOfFuel
  | S fuel' =>
      if negb (current_row =? end_row) && negb (current_col =? end_col) then
        let* x := getitem2 b current_row current_col in
        if negb (is_blank x) then Ret false
        else diag_loop fuel' b (current_row + row_step) (current_col + col_step)
               end_row end_col row_step col_step
      else Ret true
  end.

Fixpoint horiz_loop (fuel : nat) (b : board_t)
    (start_row current_col end_col col_step : Z) : res bool :=
  match fuel with
  | O => OutOfFuel
  | S fuel' =>
      if negb (current_col =? end_col) then
        let* x := getitem2 b start_row current_col in
        if negb (is_blank x) then Ret false
        else horiz_loop fuel' b start_row (current_col + col_step) end_col col_step
      else Ret true
  end.

Fixpoint vert_loop (fuel : nat) (b : board_t)
    (current_row start_col end_row row_step : Z) : res bool :=
  match fuel with
  | O => OutOfFuel
  | S fuel' =>
      if negb (current_row =? end_row) then
        let* x := getitem2 b current_row start_col in
        if negb (is_blank x) then Ret false
        else vert_loop fuel' b (current_row + row_step) start_col end_row row_step
      else Ret true
  end.

Definition rook_part (b : board_t) (piece : ascii)
    (start_row start_col end_row end_col : Z) : res bool :=
  if Ascii.eqb (upper piece) "R" || Ascii.eqb (upper piece) "Q" then
    if (start_row =? end_row) || (start_col =? end_col) then
      if start_row =? end_row then
        let col_step := if end_col >? start_col then 1 else -1 in
        horiz_loop loop_fuel b start_row (start_col + col_step) end_col col_step
      else if start_col =? end_col then
        let row_step := if end_row >? start_row then 1 else -1 in
        vert_loop loop_fuel b (start_row + row_step) start_col end_row row_step
      else Ret true
    else Ret false
  else Ret false.

Definition is_valid_bishop_rook_queen_move (b : board_t) (piece : ascii)
    (start_row start_col end_row end_col : Z) : res bool :=
  if Ascii.eqb (upper piece) "B" || Ascii.eqb (upper piece) "Q" then
    if Z.abs (end_row - start_row) =? Z.abs (end_col - start_col) then
      let row_step := if end_row >? start_row then 1 else -1 in
      let col_step := if end_col >? start_col then 1 else -1 in
      diag_loop loop_fuel b (start_row + row_step) (start_col + col_step)
        end_row end_col row_step col_step
    else rook_part b piece start_row start_col end_row end_col
  else rook_part b piece start_row start_col end_row end_col.

(** ** _is_valid_move *)

Definition in_range (i : Z) : bool := (0 <=? i) && (i <? 8).

(** [c and m], where evaluating [m] may raise *)
Definition and_then (c : bool) (m : res bool) : res bool :=
  if c then m else Ret false.

(** Everything after the pawn block: knight, sliding pieces, king, and the
    final [return False]. *)
Definition after_pawn (b : board_t) (piece : ascii)
    (start_row start_col end_row end_col : Z) : res bool :=
  let row_diff := Z.abs (end_row - start_row) in
  let col_diff := Z.abs (end_col - start_col) in
  if Ascii.eqb (upper piece) "N"
     && (((row_diff =? 2) && (col_diff =? 1)) || ((row_diff =? 1) && (col_diff =? 2)))
  then Ret true
  else if char_in (upper piece) "BRQ" then
    is_valid_bishop_rook_queen_move b piece start_row start_col end_row end_col
  else if Ascii.eqb (upper piece) "K"
          && ((Z.abs (end_row - start_row) <=? 1) && (Z.abs (end_col - start_col) <=? 1))
  then Ret true
  else Ret false.

(** One arm of the pawn block: [home] is the pawn's home row, [fwd] its
    direction of travel; [mid] and [far] are the rows the literal indices of
    the two-square test name. *)
Definition pawn_tests (b : board_t) (target : ascii)
    (home far mid fwd start_row start_col end_row end_col : Z) : res bool :=
  let* two := and_then ((start_row =? home) && (end_row =? far) && (start_col =? end_col))
           (let* x := getitem2 b mid start_col in
            and_then (is_blank x)
              (let* y := getitem2 b far start_col in Ret (is_blank y))) in
  if two then Ret true else
  let* one := and_then ((end_row =? start_row + fwd) && (start_col =? end_col))
           (let* x := getitem2 b end_row end_col in Ret (is_blank x)) in
  if one then Ret true else
  Ret ((end_row =? start_row + fwd) && (Z.abs (start_col - end_col) =? 1)
       && negb (is_blank target)).

Definition is_valid_move (g : game) (start end_ : string) : res bool :=
  let* '(start_row, start_col) := convert_to_indices start in
  let* '(end_row, end_col) := convert_to_indices end_ in
  let* piece := getitem2 (board g) start_row start_col in
  let* target := getitem2 (board g) end_row end_col in
  if (color_eqb (turn g) WHITE && islower piece)
     || (color_eqb (turn g) BLACK && isupper piece) then Ret false
  else if String.eqb start end_
          || negb (in_range start_row && in_range start_col
                   && in_range end_row && in_range end_col) then Ret false
  else if Ascii.eqb (upper piece) "K" && negb (is_blank target) then Ret false
  else if Ascii.eqb (upper piece) "P" then
    if isupper piece then
      let* ok := pawn_tests (board g) target 6 4 5 (-1)
              start_row start_col end_row end_col in
      if ok then Ret true
      else after_pawn (board g) piece start_row start_col end_row end_col
    else
      let* ok := pawn_tests (board g) target 1 3 2 1
              start_row start_col end_row end_col in
      if ok then Ret true else Ret false
  else after_pawn (board g) piece start_row start_col end_row end_col.

(** ** State and exceptions: methods that assign to [self] *)

Definition M (A : Type) : Type := game -> res A * game.

Definition mret {A} (a : A) : M A := fun g => (Ret a, g).

Definition mbind {A B} (m : M A) (k : A -> M B) : M B :=
  fun g =>
    match m g with
    | (Ret a, g') => k a g'
    | (Raise e, g') => (Raise e, g')
    | (OutOfFuel, g') => (OutOfFuel, g')
    end.

Notation "'do' x ':=' m 'in' k" := (mbind m (fun x => k))
  (at level 10, x name, m at level 100, k at level 200).
Notation "'do' ' p ':=' m 'in' k" := (mbind m (fun x => let 'p := x in k))
  (at level 10, p pattern, m at level 100, k at level 200).
Notation "m '>>' k" := (mbind m (fun _ => k))
  (at level 100, k at level 200, right associativity).

(** A computation that reads [self] and may raise *)
Definition reading {A} (f : game -> res A) : M A := fun g => (f g, g).

(** [self._board[r][c]] *)
Definition read_cell (r c : Z) : M ascii :=
  reading (fun g => getitem2 (board g) r c).

(** [self._board[r][c] = x] *)
Definition write_cell (r c : Z) (x : ascii) : M unit :=
  fun g =>
    match setitem2 (board g) r c x with
    | Ret b' => (Ret tt, {| board := b'; turn := turn g; game_state := game_state g |})
    | Raise e => (Raise e, g)
    | OutOfFuel => (OutOfFuel, g)
    end.

(** [self._game_state = s] *)
Definition set_game_state (s : outcome) : M unit :=
  fun g => (Ret tt, {| board := board g; turn := turn g; game_state := s |}).

(** [self._turn = t] *)
Definition set_turn (t : color) : M unit :=
  fun g => (Ret tt, {| board := board g; turn := t; game_state := game_state g |}).

Definition when (c : bool) (m : M unit) : M unit := if c then m else mret tt.

(** [for x in l: body(x)] *)
Fixpoint for_each {A} (l : list A) (body : A -> M unit) : M unit :=
  match l with
  | [] => mret tt
  | x :: l' => body x >> for_each l' body
  end.

(** ** _handle_explosion *)

Definition directions : list (Z * Z) :=
  [(-1, -1); (-1, 0); (-1, 1); (0, -1); (0, 1); (1, -1); (1, 0); (1, 1)].

(** Body of the first loop: a neighbour that is on the board and is neither a
    pawn nor blank is cleared. *)
Definition clear_neighbour (row col : Z) (d : Z * Z) : M unit :=
  let '(dr, dc) := d in
  let r := row + dr in
  let c := col + dc in
  if in_range r && in_range c then
    do x := read_cell r c in
    when (negb (char_in x "Pp ")) (write_cell r c " ")
  else mret tt.

(** Body of the second loop: the king test, on the board as it is by then. *)
Definition king_check (row col : Z) (d : Z * Z) : M unit :=
  let '(dr, dc) := d in
  let r := row + dr in
  let c := col + dc in
  when (in_range r && in_range c)
    (do x := read_cell r c in
     when (Ascii.eqb x "K") (set_game_state BLACK_WON) >>
     do y := read_cell r c in
     when (Ascii.eqb y "k") (set_game_state WHITE_WON)).

Definition handle_explosion (row col : Z) : M unit :=
  write_cell row col " " >>
  for_each directions (clear_neighbour row col) >>
  for_each (directions ++ [(0, 0)]) (king_check row col).

(** ** _is_king_captured *)

(** [x in row] for a list [row] *)
Definition list_in (x : ascii) (row : list ascii) : bool :=
  existsb (Ascii.eqb x) row.

Definition is_king_captured (g : game) : bool :=
  let '(white_king, black_king) :=
    fold_left (fun '(wk, bk) row =>
                 (if list_in "K" row then true else wk,
                  if list_in "k" row then true else bk))
              (board g) (false, false) in
  negb white_king || negb black_king.

(** ** make_move *)

Definition make_move (start end_ : string) : M bool :=
  do gs := reading (fun g => Ret (game_state g)) in
  if negb (outcome_eqb gs UNFINISHED) then mret false else
  do valid := reading (fun g => is_valid_move g start end_) in
  if negb valid then mret false else
  do '(start_row, start_col) := reading (fun _ => convert_to_indices start) in
  do '(end_row, end_col) := reading (fun _ => convert_to_indices end_) in
  do piece := read_cell start_row start_col in
  do target := read_cell end_row end_col in
  write_cell end_row end_col piece >>
  write_cell start_row start_col " " >>
  when (negb (is_blank target)) (handle_explosion end_row end_col) >>
  do t := reading (fun g => Ret (turn g)) in
  set_turn (if color_eqb t WHITE then BLACK else WHITE) >>
  do captured := reading (fun g => Ret (is_king_captured g)) in
  when captured
    (do t' := reading (fun g => Ret (turn g)) in
     set_game_state (if color_eqb t' WHITE then BLACK_WON else WHITE_WON)) >>
  mret true.

(** A sequence of [make_move] calls on one instance; the answers are collected
    and an exception ends the sequence. *)
Fixpoint play (moves : list (string * string)) : M (list bool) :=
  match moves with
  | [] => mret []
  | (s, e) :: rest =>
      do r := make_move s e in
      do rs := play rest in
      mret (r :: rs)
  end.

(** ** Well-formed boards and total cell access *)

Definition wf_board (b : board_t) : Prop :=
  length b = 8%nat /\ Forall (fun row => length row = 8%nat) b.

Definition wf_game (g : game) : Prop := wf_board (board g).

(** The occupant of square [(r, c)]; blank off the board. *)
Definition cell (b : board_t) (r c : Z) : ascii :=
  default " "%char (row ← b !! Z.to_nat r; row !! Z.to_nat c).

Definition set_cell (b : board_t) (r c : Z) (x : ascii) : board_t :=
  alter (fun row => <[Z.to_nat c := x]> row) (Z.to_nat r) b.

Definition on_board (r c : Z) : Prop := 0 <= r < 8 /\ 0 <= c < 8.

(** States of an instance: the constructor's, and whatever any call of
    [make_move] leaves behind. *)
Inductive reachable : game -> Prop :=
| reachable_init : reachable init
| reachable_move g start end_ :
    reachable g -> reachable (make_move start end_ g).2.

(** ** Vocabulary of the properties *)

Definition other (t : color) : color :=
  match t with WHITE => BLACK | BLACK => WHITE end.

Definition win_of (t : color) : outcome :=
  match t with WHITE => WHITE_WON | BLACK => BLACK_WON end.

(** The letter a piece of kind [k] (an upper-case letter) has for side [t]. *)
Definition piece_of (t : color) (k : ascii) : ascii :=
  match t with
  | WHITE => k
  | BLACK => ascii_of_N (N_of_ascii k + 32)
  end.

(** A non-blank cell holding a piece of side [t]. *)
Definition belongs_to (t : color) (x : ascii) : bool :=
  match t with WHITE => isupper x | BLACK => islower x end.

(** [n] squares, from [(r, c)] on, in steps of [(dr, dc)]. *)
Fixpoint line (n : nat) (r c dr dc : Z) : list (Z * Z) :=
  match n with
  | O => []
  | S n' => (r, c) :: line n' (r + dr) (c + dc) dr dc
  end.

(** The squares strictly between start and end, in the order of travel. *)
Definition between (sr sc er ec : Z) : list (Z * Z) :=
  let dr := Z.sgn (er - sr) in
  let dc := Z.sgn (ec - sc) in
  line (Z.to_nat (Z.max (Z.abs (er - sr)) (Z.abs (ec - sc))) - 1)
       (sr + dr) (sc + dc) dr dc.

Definition blank_at (b : board_t) (sq : Z * Z) : bool := is_blank (cell b sq.1 sq.2).

Definition path_clear (b : board_t) (sr sc er ec : Z) : bool :=
  forallb (blank_at b) (between sr sc er ec).

Definition diagonal (sr sc er ec : Z) : bool :=
  Z.abs (er - sr) =? Z.abs (ec - sc).

(** Exactly one of the two deltas is zero. *)
Definition straight (sr sc er ec : Z) : bool :=
  xorb (er - sr =? 0) (ec - sc =? 0).

(** The geometry a sliding piece of kind [k] may travel. *)
Definition slide_shape (k : ascii) (sr sc er ec : Z) : bool :=
  ((Ascii.eqb k "B" || Ascii.eqb k "Q") && diagonal sr sc er ec)
  || ((Ascii.eqb k "R" || Ascii.eqb k "Q") && straight sr sc er ec).

Definition l_shape (sr sc er ec : Z) : bool :=
  ((Z.abs (er - sr) =? 2) && (Z.abs (ec - sc) =? 1))
  || ((Z.abs (er - sr) =? 1) && (Z.abs (ec - sc) =? 2)).

(** Forward direction and home row of a side's pawns. *)
Definition forward (t : color) : Z := match t with WHITE => -1 | BLACK => 1 end.
Definition home_row (t : color) : Z := match t with WHITE => 6 | BLACK => 1 end.

(** One of the eight neighbours of [(row, col)]. *)
Definition adjacent (row col r c : Z) : bool :=
  (Z.abs (r - row) <=? 1) && (Z.abs (c - col) <=? 1)
  && negb ((r =? row) && (c =? col)).

Definition is_pawn (x : ascii) : bool := Ascii.eqb x "P" || Ascii.eqb x "p".

(** What the first loop of [_handle_explosion] does to one neighbour, and the
    board the whole blast leaves, on a well-formed board. *)
Definition blast_one (row col : Z) (b : board_t) (d : Z * Z) : board_t :=
  let r := row + d.1 in
  let c := col + d.2 in
  if in_range r && in_range c && negb (char_in (cell b r c) "Pp ")
  then set_cell b r c " " else b.

Definition explode_board (b : board_t) (row col : Z) : board_t :=
  fold_left (blast_one row col) directions (set_cell b row col " ").

Definition relocate (b : board_t) (sr sc er ec : Z) : board_t :=
  set_cell (set_cell b er ec (cell b sr sc)) sr sc " ".

Definition king_present (k : ascii) (b : board_t) : bool :=
  existsb (list_in k) b.

Definition king_missing (b : board_t) : bool :=
  negb (king_present "K" b) || negb (king_present "k" b).

(** The state an accepted move from [(sr, sc)] to [(er, ec)] leaves. *)
Definition moved_board (b : board_t) (sr sc er ec : Z) : board_t :=
  if is_blank (cell b er ec) then relocate b sr sc er ec
  else explode_board (relocate b sr sc er ec) er ec.

Definition after_move (g : game) (sr sc er ec : Z) : game :=
  let b' := moved_board (board g) sr sc er ec in
  {| board := b';
     turn := other (turn g);
     game_state := if king_missing b' then win_of (turn g) else game_state g |}.

Definition with_board (g : game) (b : board_t) : game :=
  {| board := b; turn := turn g; game_state := game_state g |}.

(** Number of occupied cells. *)
Definition occ (x : ascii) : nat := if is_blank x then 0%nat else 1%nat.
Definition occupied (b : board_t) : nat :=
  sum_list (map (fun row => sum_list (map occ row)) b).

(** A king of side [t] stands in the blast zone of [(row, col)]. *)
Definition king_in_zone (b : board_t) (t : color) (row col : Z) : bool :=
  existsb (fun '(dr, dc) =>
             in_range (row + dr) && in_range (col + dc)
             && Ascii.eqb (cell b (row + dr) (col + dc)) (piece_of t "K"))
          (directions ++ [(0, 0)]).

(** ** Recorded games *)

(** White advances the king to e2, a black knight lands on d3, and the pawn on
    c2 takes it: the blast centred on d3 reaches e2. *)
Definition own_king_blast : list (string * string) :=
  [("e2", "e4"); ("b8", "c6"); ("e1", "e2"); ("c6", "b4");
   ("a2", "a3"); ("b4", "d3"); ("c2", "d3")]%string.

(** The position in which White is about to play c2 takes d3. *)
Definition before_blast : game := (play (take 6 own_king_blast) init).2.

(** The position after c2 takes d3. *)
Definition after_blast : game := (play own_king_blast init).2.

(** White has a pawn on d3, a pawn on e2, and the move. *)
Definition pawn_behind_pawn : game :=
  (play [("d2", "d3"); ("a7", "a6")]%string init).2.

(** ** print_board *)

(** [sep.join(l)] *)
Fixpoint py_join (sep : string) (l : list string) : string :=
  match l with
  | [] => EmptyString
  | x :: l' =>
      match l' with
      | [] => x
      | _ :: _ => String.append x (String.append sep (py_join sep l'))
      end
  end.

(** The lines [print_board] writes: one per row, the cells joined by a space,
    then the empty line of the final [print()]. *)
Definition print_board (g : game) : list string :=
  map (fun row => py_join " " (map (fun x => String x EmptyString) row)) (board g)
  ++ [EmptyString].

(** ** Further vocabulary *)

(** Sum of [f] over the cells of a board. *)
Definition weigh (f : ascii -> nat) (b : board_t) : nat :=
  sum_list (map (fun row => sum_list (map f row)) b).


(** Number of [True] answers in a list of answers. *)
Definition count_true (rs : list bool) : nat := sum_list (map Nat.b2n rs).

(** An index Python's list indexing accepts on a list of length 8. *)
Definition indexable (i : Z) : Prop := -8 <= i < 8.

(** ** Python indexing on well-formed boards *)

Lemma in_range_spec i : in_range i = true <-> 0 <= i < 8.
Proof. unfold in_range. rewrite andb_true_iff, Z.leb_le, Z.ltb_lt. tauto. Qed.

Lemma in_range_true i : 0 <= i < 8 -> in_range i = true.
Proof. apply in_range_spec. Qed.

Lemma py_norm_in n i : 0 <= i < n -> py_norm n i = Some (Z.to_nat i).
Proof.
  intros H. unfold py_norm.
  destruct (Z.leb_spec 0 i), (Z.ltb_spec i n); try lia. reflexivity.
Qed.

Lemma py_index_in {A} (l : list A) i x :
  0 <= i -> l !! Z.to_nat i = Some x -> py_index l i = Ret x.
Proof.
  intros Hi Hl. unfold py_index.
  rewrite py_norm_in, Hl; [reflexivity|].
  apply lookup_lt_Some in Hl. lia.
Qed.

Lemma py_setitem_in {A} (l : list A) i x :
  0 <= i < Z.of_nat (length l) -> py_setitem l i x = Ret (<[Z.to_nat i := x]> l).
Proof. intros H. unfold py_setitem. rewrite py_norm_in by lia. reflexivity. Qed.

Lemma wf_row b r :
  wf_board b -> 0 <= r < 8 ->
  exists row, b !! Z.to_nat r = Some row /\ length row = 8%nat.
Proof.
  intros [Hl Hr] H.
  destruct (lookup_lt_is_Some_2 b (Z.to_nat r)) as [row Hrow]; [lia|].
  exists row. split; [assumption|].
  rewrite Forall_lookup in Hr. eapply Hr, Hrow.
Qed.

Lemma wf_cell b r c :
  wf_board b -> on_board r c ->
  exists row, b !! Z.to_nat r = Some row /\ length row = 8%nat
              /\ row !! Z.to_nat c = Some (cell b r c).
Proof.
  intros Hwf [Hr Hc].
  destruct (wf_row b r Hwf Hr) as (row & Hrow & Hlen).
  exists row. split; [assumption|]. split; [assumption|].
  destruct (lookup_lt_is_Some_2 row (Z.to_nat c)) as [x Hx]; [lia|].
  unfold cell. rewrite Hrow. simpl. rewrite Hx. reflexivity.
Qed.

Lemma getitem2_wf b r c :
  wf_board b -> on_board r c -> getitem2 b r c = Ret (cell b r c).
Proof.
  intros Hwf Hrc. destruct (wf_cell b r c Hwf Hrc) as (row & Hrow & Hlen & Hx).
  destruct Hrc as [Hr Hc]. unfold getitem2.
  rewrite (py_index_in b r row) by (lia || assumption). simpl.
  apply py_index_in; [lia | assumption].
Qed.

Lemma setitem2_wf b r c x :
  wf_board b -> on_board r c -> setitem2 b r c x = Ret (set_cell b r c x).
Proof.
  intros Hwf Hrc. destruct (wf_cell b r c Hwf Hrc) as (row & Hrow & Hlen & Hx).
  destruct Hrc as [Hr Hc]. unfold setitem2.
  rewrite (py_index_in b r row) by (lia || assumption). simpl.
  rewrite py_setitem_in by lia. simpl.
  rewrite py_setitem_in by (destruct Hwf; lia).
  f_equal. unfold set_cell.
  apply list_eq. intros i.
  destruct (decide (i = Z.to_nat r)) as [->|Hne].
  - rewrite list_lookup_insert_eq by (apply lookup_lt_Some in Hrow; lia).
    rewrite list_lookup_alter_eq, Hrow. reflexivity.
  - rewrite list_lookup_insert_ne, list_lookup_alter_ne by congruence. reflexivity.
Qed.

Lemma wf_set_cell b r c x : wf_board b -> wf_board (set_cell b r c x).
Proof.
  intros [Hl Hr]. unfold set_cell. split.
  - rewrite length_alter. assumption.
  - rewrite Forall_lookup in *. intros i row Hi.
    destruct (decide (i = Z.to_nat r)) as [->|Hne].
    + rewrite list_lookup_alter_eq in Hi.
      destruct (b !! Z.to_nat r) as [row0|] eqn:E; simpl in Hi; [|discriminate].
      injection Hi as <-. rewrite length_insert. eapply Hr, E.
    + rewrite list_lookup_alter_ne in Hi by congruence. eapply Hr, Hi.
Qed.

Lemma cell_set_cell b r c x r' c' :
  wf_board b -> on_board r c -> on_board r' c' ->
  cell (set_cell b r c x) r' c'
  = if (r' =? r) && (c' =? c) then x else cell b r' c'.
Proof.
  intros Hwf Hrc Hrc'.
  destruct (wf_cell b r c Hwf Hrc) as (row & Hrow & Hlen & Hx).
  destruct Hrc as [Hr Hc], Hrc' as [Hr' Hc'].
  unfold cell, set_cell.
  destruct (Z.eqb_spec r' r) as [->|Hne]; simpl.
  - rewrite list_lookup_alter_eq, Hrow. simpl.
    destruct (Z.eqb_spec c' c) as [->|Hnc].
    + rewrite list_lookup_insert_eq by lia. reflexivity.
    + rewrite list_lookup_insert_ne by lia. reflexivity.
  - rewrite list_lookup_alter_ne by lia. reflexivity.
Qed.

(** ** Lines of squares *)

Lemma elem_of_line n r c dr dc sq :
  sq ∈ line n r c dr dc <->
  exists j : nat, (j < n)%nat /\ sq = (r + Z.of_nat j * dr, c + Z.of_nat j * dc).
Proof.
  revert r c. induction n as [|n IH]; intros r c; simpl.
  - rewrite elem_of_nil. split; [tauto|]. intros (j & Hj & _). lia.
  - rewrite elem_of_cons, IH. split.
    + intros [->|(j & Hj & ->)].
      * exists 0%nat. split; [lia|]. f_equal; lia.
      * exists (S j). split; [lia|]. f_equal; lia.
    + intros (j & Hj & ->). destruct j as [|j].
      * left. f_equal; lia.
      * right. exists j. split; [lia|]. f_equal; lia.
Qed.

Lemma line_on_board n r c dr dc :
  (n = 0%nat \/
   (on_board r c /\
    on_board (r + Z.of_nat (n - 1) * dr) (c + Z.of_nat (n - 1) * dc))) ->
  Forall (fun sq => on_board sq.1 sq.2) (line n r c dr dc).
Proof.
  intros H. rewrite Forall_forall. intros sq Hsq.
  apply elem_of_line in Hsq as (j & Hj & ->). simpl.
  destruct H as [->|[[Hr Hc] [Hr' Hc']]]; [lia|].
  assert (Hm : 0 <= Z.of_nat j <= Z.of_nat (n - 1)) by lia.
  revert Hr' Hc' Hm. generalize (Z.of_nat (n - 1)) (Z.of_nat j). intros m i Hr' Hc' Hm.
  assert (forall d, (0 <= i * d <= m * d) \/ (m * d <= i * d <= 0)) as Hd
    by (intros d; destruct (Z.le_gt_cases 0 d); [left | right]; nia).
  unfold on_board. destruct (Hd dr), (Hd dc); lia.
Qed.

(** ** The path loops on a well-formed board *)

Section Loops.
Variable b : board_t.
Hypothesis Hwf : wf_board b.

Lemma diag_loop_spec n : forall fuel r c dr dc,
  (n < fuel)%nat -> dr <> 0 -> dc <> 0 ->
  Forall (fun sq => on_board sq.1 sq.2) (line n r c dr dc) ->
  diag_loop fuel b r c (r + Z.of_nat n * dr) (c + Z.of_nat n * dc) dr dc
  = Ret (forallb (blank_at b) (line n r c dr dc)).
Proof.
  induction n as [|n IH]; intros fuel r c dr dc Hf Hdr Hdc Hon;
    (destruct fuel as [|fuel]; [lia|]); simpl.
  - replace (r + Z.of_nat 0 * dr) with r by lia. rewrite Z.eqb_refl.
    reflexivity.
  - inversion Hon as [|sq l H1 H2]; subst. simpl in H1.
    destruct (Z.eqb_spec r (r + Z.of_nat (S n) * dr)) as [E|_]; [nia|].
    destruct (Z.eqb_spec c (c + Z.of_nat (S n) * dc)) as [E|_]; [nia|].
    simpl. rewrite getitem2_wf by assumption. simpl.
    unfold blank_at at 1. simpl.
    destruct (is_blank (cell b r c)); simpl; [|reflexivity].
    rewrite <- (IH fuel) by (assumption || lia). f_equal; lia.
Qed.

Lemma horiz_loop_spec n : forall fuel r c dc,
  (n < fuel)%nat -> dc <> 0 ->
  Forall (fun sq => on_board sq.1 sq.2) (line n r c 0 dc) ->
  horiz_loop fuel b r c (c + Z.of_nat n * dc) dc
  = Ret (forallb (blank_at b) (line n r c 0 dc)).
Proof.
  induction n as [|n IH]; intros fuel r c dc Hf Hdc Hon;
    (destruct fuel as [|fuel]; [lia|]); simpl.
  - replace (c + Z.of_nat 0 * dc) with c by lia. rewrite Z.eqb_refl.
    reflexivity.
  - inversion Hon as [|sq l H1 H2]; subst. simpl in H1.
    destruct (Z.eqb_spec c (c + Z.of_nat (S n) * dc)) as [E|_]; [nia|].
    simpl. rewrite getitem2_wf by assumption. simpl.
    unfold blank_at at 1. simpl.
    destruct (is_blank (cell b r c)); simpl; [|reflexivity].
    rewrite Z.add_0_r in *.
    rewrite <- (IH fuel) by (assumption || lia). f_equal; lia.
Qed.

Lemma vert_loop_spec n : forall fuel r c dr,
  (n < fuel)%nat -> dr <> 0 ->
  Forall (fun sq => on_board sq.1 sq.2) (line n r c dr 0) ->
  vert_loop fuel b r c (r + Z.of_nat n * dr) dr
  = Ret (forallb (blank_at b) (line n r c dr 0)).
Proof.
  induction n as [|n IH]; intros fuel r c dr Hf Hdr Hon;
    (destruct fuel as [|fuel]; [lia|]); simpl.
  - replace (r + Z.of_nat 0 * dr) with r by lia. rewrite Z.eqb_refl.
    reflexivity.
  - inversion Hon as [|sq l H1 H2]; subst. simpl in H1.
    destruct (Z.eqb_spec r (r + Z.of_nat (S n) * dr)) as [E|_]; [nia|].
    simpl. rewrite getitem2_wf by assumption. simpl.
    unfold blank_at at 1. simpl.
    destruct (is_blank (cell b r c)); simpl; [|reflexivity].
    rewrite Z.add_0_r in *.
    rewrite <- (IH fuel) by (assumption || lia). f_equal; lia.
Qed.

Lemma diag_loop_to n fuel r c er ec dr dc :
  er = r + Z.of_nat n * dr -> ec = c + Z.of_nat n * dc ->
  (n < fuel)%nat -> dr <> 0 -> dc <> 0 ->
  Forall (fun sq => on_board sq.1 sq.2) (line n r c dr dc) ->
  diag_loop fuel b r c er ec dr dc = Ret (forallb (blank_at b) (line n r c dr dc)).
Proof. intros -> ->. apply diag_loop_spec. Qed.

Lemma horiz_loop_to n fuel r c ec dc :
  ec = c + Z.of_nat n * dc ->
  (n < fuel)%nat -> dc <> 0 ->
  Forall (fun sq => on_board sq.1 sq.2) (line n r c 0 dc) ->
  horiz_loop fuel b r c ec dc = Ret (forallb (blank_at b) (line n r c 0 dc)).
Proof. intros ->. apply horiz_loop_spec. Qed.

Lemma vert_loop_to n fuel r c er dr :
  er = r + Z.of_nat n * dr ->
  (n < fuel)%nat -> dr <> 0 ->
  Forall (fun sq => on_board sq.1 sq.2) (line n r c dr 0) ->
  vert_loop fuel b r c er dr = Ret (forallb (blank_at b) (line n r c dr 0)).
Proof. intros ->. apply vert_loop_spec. Qed.
End Loops.

Arguments diag_loop : simpl never.
Arguments horiz_loop : simpl never.
Arguments vert_loop : simpl never.

(** ** Sliding pieces *)

Lemma step_sgn a b : a <> b -> (if b >? a then 1 else -1) = Z.sgn (b - a).
Proof.
  intros H. destruct (Z.gtb_spec b a).
  - rewrite Z.sgn_pos by lia. reflexivity.
  - rewrite Z.sgn_neg by lia. reflexivity.
Qed.

Lemma sgn_cases x : (x = 0 /\ Z.sgn x = 0) \/ (0 < x /\ Z.sgn x = 1) \/ (x < 0 /\ Z.sgn x = -1).
Proof.
  destruct (Z.lt_trichotomy x 0) as [H|[H|H]].
  - right; right. split; [assumption | apply Z.sgn_neg; assumption].
  - left. subst. split; reflexivity.
  - right; left. split; [assumption | apply Z.sgn_pos; assumption].
Qed.

Lemma between_on_board sr sc er ec :
  on_board sr sc -> on_board er ec ->
  diagonal sr sc er ec = true \/ sr = er \/ sc = ec ->
  Forall (fun sq => on_board sq.1 sq.2) (between sr sc er ec)
  /\ (length (between sr sc er ec) < loop_fuel)%nat.
Proof.
  intros [Hr Hc] [Hr' Hc'] Hshape. unfold between.
  assert (length (line (Z.to_nat (Z.max (Z.abs (er - sr)) (Z.abs (ec - sc))) - 1)
                   (sr + Z.sgn (er - sr)) (sc + Z.sgn (ec - sc))
                   (Z.sgn (er - sr)) (Z.sgn (ec - sc)))
          = (Z.to_nat (Z.max (Z.abs (er - sr)) (Z.abs (ec - sc))) - 1)%nat) as Hlen.
  { generalize (sr + Z.sgn (er - sr)) (sc + Z.sgn (ec - sc)).
    induction (Z.to_nat (Z.max (Z.abs (er - sr)) (Z.abs (ec - sc))) - 1)%nat;
      intros; simpl; [reflexivity | f_equal; auto]. }
  split; [|rewrite Hlen; unfold loop_fuel; lia].
  apply line_on_board.
  destruct (decide (Z.to_nat (Z.max (Z.abs (er - sr)) (Z.abs (ec - sc))) - 1 = 0)%nat)
    as [E|E]; [left; assumption | right].
  unfold diagonal in Hshape. rewrite Z.eqb_eq in Hshape.
  unfold on_board.
  destruct (sgn_cases (er - sr)) as [[? ->]|[[? ->]|[? ->]]],
           (sgn_cases (ec - sc)) as [[? ->]|[[? ->]|[? ->]]]; lia.
Qed.

Section Sliding.
Variable b : board_t.
Hypothesis Hwf : wf_board b.
Variables sr sc er ec : Z.
Hypothesis Hstart : on_board sr sc.
Hypothesis Hend : on_board er ec.

Lemma diag_walk :
  diagonal sr sc er ec = true -> sr <> er ->
  diag_loop loop_fuel b
    (sr + (if er >? sr then 1 else -1)) (sc + (if ec >? sc then 1 else -1))
    er ec (if er >? sr then 1 else -1) (if ec >? sc then 1 else -1)
  = Ret (path_clear b sr sc er ec).
Proof.
  intros Hd Hne.
  destruct (between_on_board sr sc er ec Hstart Hend (or_introl Hd)) as [Hon Hlen].
  unfold diagonal in Hd. rewrite Z.eqb_eq in Hd.
  assert (sc <> ec) by lia.
  rewrite !step_sgn by assumption.
  unfold path_clear, between in *.
  set (n := (Z.to_nat (Z.max (Z.abs (er - sr)) (Z.abs (ec - sc))) - 1)%nat) in *.
  apply (diag_loop_to b Hwf n).
  - subst n. destruct (sgn_cases (er - sr)) as [[? ->]|[[? ->]|[? ->]]]; lia.
  - subst n. destruct (sgn_cases (ec - sc)) as [[? ->]|[[? ->]|[? ->]]]; lia.
  - unfold loop_fuel. subst n. destruct Hstart, Hend. lia.
  - destruct (sgn_cases (er - sr)) as [[? ->]|[[? ->]|[? ->]]]; lia.
  - destruct (sgn_cases (ec - sc)) as [[? ->]|[[? ->]|[? ->]]]; lia.
  - assumption.
Qed.

Lemma horiz_walk :
  sr = er -> sc <> ec ->
  horiz_loop loop_fuel b sr (sc + (if ec >? sc then 1 else -1)) ec
    (if ec >? sc then 1 else -1)
  = Ret (path_clear b sr sc er ec).
Proof.
  intros He Hne.
  destruct (between_on_board sr sc er ec Hstart Hend (or_intror (or_introl He)))
    as [Hon Hlen].
  rewrite !step_sgn by assumption.
  unfold path_clear, between in *. subst er.
  rewrite Z.sub_diag in *. change (Z.sgn 0) with 0 in *. rewrite Z.add_0_r in *.
  set (n := (Z.to_nat (Z.max (Z.abs 0) (Z.abs (ec - sc))) - 1)%nat) in *.
  apply (horiz_loop_to b Hwf n).
  - subst n. destruct (sgn_cases (ec - sc)) as [[? ->]|[[? ->]|[? ->]]]; lia.
  - unfold loop_fuel. subst n. destruct Hstart, Hend. lia.
  - destruct (sgn_cases (ec - sc)) as [[? ->]|[[? ->]|[? ->]]]; lia.
  - assumption.
Qed.

Lemma vert_walk :
  sc = ec -> sr <> er ->
  vert_loop loop_fuel b (sr + (if er >? sr then 1 else -1)) sc er
    (if er >? sr then 1 else -1)
  = Ret (path_clear b sr sc er ec).
Proof.
  intros He Hne.
  destruct (between_on_board sr sc er ec Hstart Hend (or_intror (or_intror He)))
    as [Hon Hlen].
  rewrite !step_sgn by assumption.
  unfold path_clear, between in *. subst ec.
  rewrite Z.sub_diag in *. change (Z.sgn 0) with 0 in *. rewrite Z.add_0_r in *.
  set (n := (Z.to_nat (Z.max (Z.abs (er - sr)) (Z.abs 0)) - 1)%nat) in *.
  apply (vert_loop_to b Hwf n).
  - subst n. destruct (sgn_cases (er - sr)) as [[? ->]|[[? ->]|[? ->]]]; lia.
  - unfold loop_fuel. subst n. destruct Hstart, Hend. lia.
  - destruct (sgn_cases (er - sr)) as [[? ->]|[[? ->]|[? ->]]]; lia.
  - assumption.
Qed.

Lemma rook_part_spec piece :
  sr <> er \/ sc <> ec ->
  rook_part b piece sr sc er ec
  = Ret ((Ascii.eqb (upper piece) "R" || Ascii.eqb (upper piece) "Q")
         && straight sr sc er ec && path_clear b sr sc er ec).
Proof.
  intros Hne. unfold rook_part, straight.
  destruct (Ascii.eqb (upper piece) "R" || Ascii.eqb (upper piece) "Q");
    [simpl | reflexivity].
  destruct (Z.eqb_spec sr er) as [E1|E1], (Z.eqb_spec sc ec) as [E2|E2];
    try lia; simpl.
  - rewrite horiz_walk by assumption.
    destruct (Z.eqb_spec (er - sr) 0), (Z.eqb_spec (ec - sc) 0); try lia.
    reflexivity.
  - rewrite vert_walk by assumption.
    destruct (Z.eqb_spec (er - sr) 0), (Z.eqb_spec (ec - sc) 0); try lia.
    reflexivity.
  - destruct (Z.eqb_spec (er - sr) 0), (Z.eqb_spec (ec - sc) 0); try lia.
    reflexivity.
Qed.

Lemma is_valid_bishop_rook_queen_move_spec piece :
  sr <> er \/ sc <> ec ->
  is_valid_bishop_rook_queen_move b piece sr sc er ec
  = Ret (slide_shape (upper piece) sr sc er ec && path_clear b sr sc er ec).
Proof.
  intros Hne. unfold is_valid_bishop_rook_queen_move, slide_shape.
  rewrite rook_part_spec by assumption.
  fold (diagonal sr sc er ec).
  destruct (diagonal sr sc er ec) eqn:Hd.
  - assert (sr <> er).
    { unfold diagonal in Hd. rewrite Z.eqb_eq in Hd. lia. }
    assert (straight sr sc er ec = false) as ->.
    { unfold straight, diagonal in *. rewrite Z.eqb_eq in Hd.
      destruct (Z.eqb_spec (er - sr) 0), (Z.eqb_spec (ec - sc) 0); try lia.
      reflexivity. }
    destruct (Ascii.eqb (upper piece) "B" || Ascii.eqb (upper piece) "Q") eqn:E.
    + rewrite diag_walk by assumption. rewrite andb_true_r, andb_false_r, orb_false_r.
      reflexivity.
    + rewrite !andb_false_r. reflexivity.
  - rewrite andb_false_r.
    destruct (Ascii.eqb (upper piece) "B" || Ascii.eqb (upper piece) "Q");
      reflexivity.
Qed.
End Sliding.

(** ** Evaluating tests on literal characters *)

Ltac lit_bool t :=
  let v := eval vm_compute in t in
  lazymatch v with
  | true => change t with true
  | false => change t with false
  end.

Ltac char_eval :=
  repeat match goal with
  | |- context [piece_of WHITE ?k] => change (piece_of WHITE k) with k
  | |- context [piece_of BLACK (Ascii ?a ?b ?c ?d ?e ?f ?g ?h)] =>
      let v := eval vm_compute in (piece_of BLACK (Ascii a b c d e f g h)) in
      change (piece_of BLACK (Ascii a b c d e f g h)) with v
  | |- context [upper (Ascii ?a ?b ?c ?d ?e ?f ?g ?h)] =>
      let v := eval vm_compute in (upper (Ascii a b c d e f g h)) in
      change (upper (Ascii a b c d e f g h)) with v
  | |- context [islower (Ascii ?a ?b ?c ?d ?e ?f ?g ?h)] =>
      lit_bool (islower (Ascii a b c d e f g h))
  | |- context [isupper (Ascii ?a ?b ?c ?d ?e ?f ?g ?h)] =>
      lit_bool (isupper (Ascii a b c d e f g h))
  | |- context [is_blank (Ascii ?a ?b ?c ?d ?e ?f ?g ?h)] =>
      lit_bool (is_blank (Ascii a b c d e f g h))
  | |- context [char_in (Ascii ?a ?b ?c ?d ?e ?f ?g ?h) ?s] =>
      lit_bool (char_in (Ascii a b c d e f g h) s)
  | |- context [Ascii.eqb (Ascii ?a ?b ?c ?d ?e ?f ?g ?h)
                          (Ascii ?a' ?b' ?c' ?d' ?e' ?f' ?g' ?h')] =>
      lit_bool (Ascii.eqb (Ascii a b c d e f g h) (Ascii a' b' c' d' e' f' g' h'))
  | |- context [color_eqb ?x ?y] => lit_bool (color_eqb x y)
  end.

Arguments pawn_tests : simpl never.
Arguments after_pawn : simpl never.
Arguments is_valid_bishop_rook_queen_move : simpl never.

(** ** _is_valid_move on a well-formed board *)

Lemma is_blank_spec x : is_blank x = true <-> x = " "%char.
Proof. unfold is_blank. apply Ascii.eqb_eq. Qed.

Lemma pawn_tests_wf b target home far mid fwd sr sc er ec :
  wf_board b -> on_board sr sc -> on_board er ec ->
  0 <= mid < 8 -> 0 <= far < 8 ->
  pawn_tests b target home far mid fwd sr sc er ec
  = Ret (((sr =? home) && (er =? far) && (sc =? ec)
          && is_blank (cell b mid sc) && is_blank (cell b far sc))
         || ((er =? sr + fwd) && (sc =? ec) && is_blank (cell b er ec))
         || ((er =? sr + fwd) && (Z.abs (sc - ec) =? 1) && negb (is_blank target))).
Proof.
  intros Hwf [Hr Hc] Hend Hmid Hfar. unfold pawn_tests, and_then.
  rewrite !getitem2_wf by (assumption || (split; assumption)).
  cbn [rbind].
  destruct (sr =? home), (er =? far), (sc =? ec), (er =? sr + fwd),
    (is_blank (cell b mid sc)), (is_blank (cell b far sc)),
    (is_blank (cell b er ec)), (Z.abs (sc - ec) =? 1), (is_blank target);
    reflexivity.
Qed.

Section OnBoard.
Variable g : game.
Hypothesis Hwf : wf_game g.
Variables (start end_ : string) (sr sc er ec : Z).
Hypothesis Hs : convert_to_indices start = Ret (sr, sc).
Hypothesis He : convert_to_indices end_ = Ret (er, ec).
Hypothesis Hstart : on_board sr sc.
Hypothesis Hend : on_board er ec.
Hypothesis Hne : sr <> er \/ sc <> ec.

Let piece := cell (board g) sr sc.
Let target := cell (board g) er ec.

Lemma is_valid_move_on_board :
  is_valid_move g start end_ =
  if (color_eqb (turn g) WHITE && islower piece)
     || (color_eqb (turn g) BLACK && isupper piece) then Ret false
  else if Ascii.eqb (upper piece) "K" && negb (is_blank target) then Ret false
  else if Ascii.eqb (upper piece) "P" then
    if isupper piece then
      let* ok := pawn_tests (board g) target 6 4 5 (-1) sr sc er ec in
      if ok then Ret true else after_pawn (board g) piece sr sc er ec
    else
      let* ok := pawn_tests (board g) target 1 3 2 1 sr sc er ec in
      if ok then Ret true else Ret false
  else after_pawn (board g) piece sr sc er ec.
Proof.
  unfold is_valid_move. rewrite Hs, He. cbn [rbind].
  rewrite !getitem2_wf by assumption. cbn [rbind].
  assert (String.eqb start end_ = false) as ->.
  { destruct (String.eqb_spec start end_) as [E|E]; [|reflexivity].
    subst. rewrite Hs in He. injection He as ? ?. lia. }
  destruct Hstart as [H1 H2], Hend as [H3 H4].
  rewrite !in_range_true by assumption.
  reflexivity.
Qed.

Lemma after_pawn_spec x :
  after_pawn (board g) x sr sc er ec =
  Ret (if Ascii.eqb (upper x) "N" && l_shape sr sc er ec then true
       else if char_in (upper x) "BRQ" then
         slide_shape (upper x) sr sc er ec && path_clear (board g) sr sc er ec
       else Ascii.eqb (upper x) "K"
            && ((Z.abs (er - sr) <=? 1) && (Z.abs (ec - sc) <=? 1))).
Proof.
  unfold after_pawn. fold (l_shape sr sc er ec).
  destruct (Ascii.eqb (upper x) "N" && l_shape sr sc er ec); [reflexivity|].
  destruct (char_in (upper x) "BRQ").
  - apply is_valid_bishop_rook_queen_move_spec; assumption.
  - destruct (Ascii.eqb (upper x) "K"
              && ((Z.abs (er - sr) <=? 1) && (Z.abs (ec - sc) <=? 1)));
      reflexivity.
Qed.

(** On the board the validator always answers: no exception, no loop left
    unfinished. *)
Lemma is_valid_move_answers : exists v, is_valid_move g start end_ = Ret v.
Proof.
  rewrite is_valid_move_on_board.
  rewrite !pawn_tests_wf, !after_pawn_spec by (assumption || lia).
  cbn [rbind].
  repeat match goal with
         | |- context [if ?c then _ else _] => destruct c
         end; eexists; reflexivity.
Qed.

Lemma knight_legal :
  piece = piece_of (turn g) "N" ->
  is_valid_move g start end_ = Ret (l_shape sr sc er ec).
Proof.
  intros Hp. rewrite is_valid_move_on_board, after_pawn_spec. rewrite Hp.
  destruct (turn g); char_eval; cbn [andb orb negb];
    destruct (l_shape sr sc er ec); reflexivity.
Qed.

Lemma slider_legal k :
  k = "B"%char \/ k = "R"%char \/ k = "Q"%char ->
  piece = piece_of (turn g) k ->
  is_valid_move g start end_
  = Ret (slide_shape k sr sc er ec && path_clear (board g) sr sc er ec).
Proof.
  intros Hk Hp. rewrite is_valid_move_on_board, after_pawn_spec. rewrite Hp.
  destruct Hk as [->|[->| ->]]; destruct (turn g); char_eval;
    cbn [andb orb negb]; reflexivity.
Qed.

Lemma pawn_legal :
  piece = piece_of (turn g) "P" ->
  is_valid_move g start end_
  = Ret (((sr =? home_row (turn g)) && (er =? sr + 2 * forward (turn g))
          && (sc =? ec)
          && is_blank (cell (board g) (sr + forward (turn g)) sc)
          && is_blank target)
         || ((er =? sr + forward (turn g)) && (sc =? ec) && is_blank target)
         || ((er =? sr + forward (turn g)) && (Z.abs (sc - ec) =? 1)
             && negb (is_blank target))).
Proof.
  intros Hp. rewrite is_valid_move_on_board, after_pawn_spec.
  rewrite !pawn_tests_wf by (assumption || lia). rewrite Hp.
  destruct (turn g); char_eval; cbn [andb orb negb rbind home_row forward];
    subst target;
    repeat match goal with
           | |- context [Z.eqb ?a ?b] =>
               destruct (Z.eqb_spec a b); try subst; try lia
           end;
    change (6 + -1) with 5; change (6 + 2 * -1) with 4;
    change (1 + 1) with 2; change (1 + 2 * 1) with 3;
    repeat match goal with
           | |- context [is_blank ?x] => destruct (is_blank x)
           end;
    first [reflexivity | lia].
Qed.
End OnBoard.

(** ** Which calls the validator accepts *)

Lemma py_index_fuel {A} (l : list A) i : py_index l i <> OutOfFuel.
Proof.
  unfold py_index. destruct (py_norm _ i); [|discriminate].
  destruct (l !! n); discriminate.
Qed.

Lemma getitem2_fuel b r c : getitem2 b r c <> OutOfFuel.
Proof.
  unfold getitem2. destruct (py_index b r) eqn:E; cbn [rbind];
    [apply py_index_fuel | discriminate | exact (False_ind _ (py_index_fuel _ _ E))].
Qed.

Lemma convert_to_indices_fuel s : convert_to_indices s <> OutOfFuel.
Proof.
  destruct s as [|c [|r [|? ?]]]; simpl; try discriminate.
  unfold py_int. destruct (_ && _); discriminate.
Qed.

Lemma ord_inj x y : ord x = ord y -> x = y.
Proof.
  unfold ord. intros H. apply N2Z.inj in H.
  rewrite <- (ascii_N_embedding x), <- (ascii_N_embedding y), H. reflexivity.
Qed.

Lemma convert_to_indices_inj s e p :
  convert_to_indices s = Ret p -> convert_to_indices e = Ret p -> s = e.
Proof.
  destruct s as [|c [|r [|? ?]]]; simpl; try discriminate.
  destruct e as [|c' [|r' [|? ?]]]; simpl; try discriminate.
  unfold py_int.
  destruct (_ && _); [|discriminate]. destruct (_ && _); [|discriminate].
  cbn [rbind]. intros [= <-] [= H1 H2].
  assert (ord r = ord r') by lia. assert (ord c = ord c') by lia.
  f_equal; [|f_equal]; apply ord_inj; congruence.
Qed.

Lemma blank_start_illegal g start end_ sr sc er ec :
  wf_game g ->
  convert_to_indices start = Ret (sr, sc) -> convert_to_indices end_ = Ret (er, ec) ->
  on_board sr sc -> on_board er ec -> sr <> er \/ sc <> ec ->
  is_blank (cell (board g) sr sc) = true ->
  is_valid_move g start end_ = Ret false.
Proof.
  intros Hwf Hs He H1 H2 Hne Hb. apply is_blank_spec in Hb.
  rewrite (is_valid_move_on_board g Hwf start end_ sr sc er ec) by assumption.
  rewrite after_pawn_spec by assumption. rewrite Hb.
  destruct (turn g); char_eval; reflexivity.
Qed.

(** The three ways a call of the validator ends on a well-formed board. *)
Lemma is_valid_move_cases g start end_ :
  wf_game g ->
  (exists x, is_valid_move g start end_ = Raise x)
  \/ is_valid_move g start end_ = Ret false
  \/ (is_valid_move g start end_ = Ret true /\
      exists sr sc er ec,
        convert_to_indices start = Ret (sr, sc)
        /\ convert_to_indices end_ = Ret (er, ec)
        /\ on_board sr sc /\ on_board er ec /\ (sr <> er \/ sc <> ec)
        /\ is_blank (cell (board g) sr sc) = false).
Proof.
  intros Hwf.
  destruct (convert_to_indices start) as [[sr sc]|x|] eqn:Hs;
    [ | left; exists x; unfold is_valid_move; rewrite Hs; reflexivity
      | destruct (convert_to_indices_fuel _ Hs) ].
  destruct (convert_to_indices end_) as [[er ec]|x|] eqn:He;
    [ | left; exists x; unfold is_valid_move; rewrite Hs, He; reflexivity
      | destruct (convert_to_indices_fuel _ He) ].
  destruct (String.eqb start end_
            || negb (in_range sr && in_range sc && in_range er && in_range ec))
    eqn:Hb.
  - unfold is_valid_move. rewrite Hs, He. cbn [rbind].
    destruct (getitem2 (board g) sr sc) as [piece|x|] eqn:Hp; cbn [rbind];
      [ | left; eauto | destruct (getitem2_fuel _ _ _ Hp) ].
    destruct (getitem2 (board g) er ec) as [target|x|] eqn:Ht; cbn [rbind];
      [ | left; eauto | destruct (getitem2_fuel _ _ _ Ht) ].
    rewrite Hb. right; left.
    destruct (color_eqb (turn g) WHITE && islower piece
              || color_eqb (turn g) BLACK && isupper piece); reflexivity.
  - apply orb_false_elim in Hb as [Hse Hin]. apply negb_false_iff in Hin.
    rewrite !andb_true_iff, !in_range_spec in Hin.
    destruct Hin as [[[? ?] ?] ?].
    assert (on_board sr sc) by (split; assumption).
    assert (on_board er ec) by (split; assumption).
    assert (sr <> er \/ sc <> ec) as Hne.
    { destruct (decide (sr = er)) as [->|]; [|left; assumption].
      destruct (decide (sc = ec)) as [->|]; [|right; assumption].
      rewrite (convert_to_indices_inj _ _ _ Hs He), String.eqb_refl in Hse.
      discriminate. }
    destruct (is_valid_move_answers g Hwf start end_ sr sc er ec) as [[|] Hv];
      try assumption; [|right; left; assumption].
    right; right. split; [assumption|].
    exists sr, sc, er, ec. repeat (split; [assumption || reflexivity|]).
    destruct (is_blank (cell (board g) sr sc)) eqn:Hblank; [|reflexivity].
    rewrite (blank_start_illegal g start end_ sr sc er ec) in Hv by assumption.
    discriminate.
Qed.

(** ** The blast on a well-formed board *)

Lemma wf_blast_one row col b d : wf_board b -> wf_board (blast_one row col b d).
Proof.
  intros H. unfold blast_one.
  destruct (_ && _); [apply wf_set_cell|]; assumption.
Qed.

Lemma wf_fold_blast row col ds :
  forall b, wf_board b -> wf_board (fold_left (blast_one row col) ds b).
Proof. induction ds; simpl; auto using wf_blast_one. Qed.

Lemma wf_explode_board b row col : wf_board b -> wf_board (explode_board b row col).
Proof. intros H. apply wf_fold_blast, wf_set_cell, H. Qed.

Lemma blast_one_cell row col b d r c :
  wf_board b -> on_board r c ->
  cell (blast_one row col b d) r c
  = if (r =? row + d.1) && (c =? col + d.2) && negb (char_in (cell b r c) "Pp ")
    then " "%char else cell b r c.
Proof.
  intros Hwf Hrc. unfold blast_one.
  destruct (in_range (row + d.1)) eqn:E1, (in_range (col + d.2)) eqn:E2;
    cbn [andb];
    try (rewrite <- not_true_iff_false, in_range_spec in E1);
    try (rewrite <- not_true_iff_false, in_range_spec in E2);
    try (destruct Hrc;
         destruct (Z.eqb_spec r (row + d.1)), (Z.eqb_spec c (col + d.2));
         cbn [andb]; (reflexivity || lia)).
  apply in_range_spec in E1, E2.
  destruct (negb (char_in (cell b (row + d.1) (col + d.2)) "Pp ")) eqn:E3.
  - rewrite cell_set_cell by (assumption || (split; assumption)).
    destruct (Z.eqb_spec r (row + d.1)) as [->|], (Z.eqb_spec c (col + d.2)) as [->|];
      cbn [andb]; try reflexivity.
    rewrite E3. reflexivity.
  - destruct (Z.eqb_spec r (row + d.1)) as [->|], (Z.eqb_spec c (col + d.2)) as [->|];
      cbn [andb]; try reflexivity.
    rewrite E3. reflexivity.
Qed.

Lemma fold_blast_cell row col ds : forall b r c,
  wf_board b -> on_board r c ->
  cell (fold_left (blast_one row col) ds b) r c
  = if existsb (fun d => (r =? row + d.1) && (c =? col + d.2)) ds
       && negb (char_in (cell b r c) "Pp ")
    then " "%char else cell b r c.
Proof.
  induction ds as [|d ds IH]; intros b r c Hwf Hrc; cbn [fold_left existsb].
  - reflexivity.
  - rewrite IH by (assumption || apply wf_blast_one, Hwf).
    rewrite blast_one_cell by assumption.
    destruct ((r =? row + d.1) && (c =? col + d.2)),
      (existsb (fun d0 => (r =? row + d0.1) && (c =? col + d0.2)) ds),
      (negb (char_in (cell b r c) "Pp ")) eqn:E;
      cbn [andb orb]; char_eval; cbn [andb negb]; try rewrite E; reflexivity.
Qed.

Lemma directions_adjacent row col r c :
  existsb (fun d => (r =? row + d.1) && (c =? col + d.2)) directions
  = adjacent row col r c.
Proof.
  unfold directions, adjacent. cbn [existsb fst snd].
  repeat match goal with
         | |- context [Z.eqb ?a ?b] => destruct (Z.eqb_spec a b); try lia
         end;
  repeat match goal with
         | |- context [Z.leb ?a ?b] => destruct (Z.leb_spec a b); try lia
         end;
  reflexivity.
Qed.

(** The board after the blast, cell by cell. *)
Lemma explode_cell b row col r c :
  wf_board b -> on_board row col -> on_board r c ->
  cell (explode_board b row col) r c
  = if (r =? row) && (c =? col) then " "%char
    else if adjacent row col r c && negb (char_in (cell b r c) "Pp ") then " "%char
    else cell b r c.
Proof.
  intros Hwf Hc Hrc. unfold explode_board.
  rewrite fold_blast_cell by (assumption || apply wf_set_cell, Hwf).
  rewrite directions_adjacent, cell_set_cell by assumption.
  destruct ((r =? row) && (c =? col)) eqn:E; [|reflexivity].
  char_eval. rewrite andb_false_r. reflexivity.
Qed.

Lemma not_king x :
  char_in x "Pp " = true -> Ascii.eqb x "K" = false /\ Ascii.eqb x "k" = false.
Proof.
  unfold char_in. cbn [list_ascii_of_string existsb].
  rewrite !orb_true_iff, !Ascii.eqb_eq.
  intros [->|[->|[->|?]]]; try discriminate; split; reflexivity.
Qed.

(** ** Methods on a well-formed instance *)

Lemma with_board_id g : with_board g (board g) = g.
Proof. destruct g; reflexivity. Qed.

Lemma read_cell_wf g r c :
  wf_game g -> on_board r c -> read_cell r c g = (Ret (cell (board g) r c), g).
Proof. intros. unfold read_cell, reading. rewrite getitem2_wf by assumption. reflexivity. Qed.

Lemma write_cell_wf g r c x :
  wf_game g -> on_board r c ->
  write_cell r c x g = (Ret tt, with_board g (set_cell (board g) r c x)).
Proof. intros. unfold write_cell. rewrite setitem2_wf by assumption. reflexivity. Qed.

Lemma clear_neighbour_wf row col d g :
  wf_game g ->
  clear_neighbour row col d g
  = (Ret tt, with_board g (blast_one row col (board g) d)).
Proof.
  intros Hwf. destruct d as [dr dc]. unfold clear_neighbour, blast_one. cbn [fst snd].
  destruct (in_range (row + dr)) eqn:E1, (in_range (col + dc)) eqn:E2; cbn [andb];
    try (unfold mret; rewrite with_board_id; reflexivity).
  apply in_range_spec in E1, E2.
  unfold mbind. rewrite read_cell_wf by (assumption || (split; assumption)).
  destruct (negb (char_in (cell (board g) (row + dr) (col + dc)) "Pp ")); cbn [when].
  - apply write_cell_wf; [assumption | split; assumption].
  - unfold mret. rewrite with_board_id. reflexivity.
Qed.

Lemma clear_loop row col ds : forall g,
  wf_game g ->
  for_each ds (clear_neighbour row col) g
  = (Ret tt, with_board g (fold_left (blast_one row col) ds (board g))).
Proof.
  induction ds as [|d ds IH]; intros g Hwf; cbn [for_each fold_left].
  - unfold mret. rewrite with_board_id. reflexivity.
  - unfold mbind. rewrite clear_neighbour_wf by assumption.
    rewrite IH by (apply wf_blast_one, Hwf). reflexivity.
Qed.

Lemma king_loop row col ds : forall g,
  wf_game g ->
  (forall d, d ∈ ds -> on_board (row + d.1) (col + d.2) ->
             char_in (cell (board g) (row + d.1) (col + d.2)) "Pp " = true) ->
  for_each ds (king_check row col) g = (Ret tt, g).
Proof.
  induction ds as [|[dr dc] ds IH]; intros g Hwf Hz; cbn [for_each].
  - reflexivity.
  - assert (king_check row col (dr, dc) g = (Ret tt, g)) as Hk.
    { unfold king_check.
      destruct (in_range (row + dr)) eqn:E1, (in_range (col + dc)) eqn:E2;
        cbn [andb when]; try reflexivity.
      apply in_range_spec in E1, E2.
      assert (on_board (row + dr) (col + dc)) as Hon by (split; assumption).
      destruct (not_king _ (Hz (dr, dc) (list_elem_of_here _ _) Hon)) as [HK Hk].
      cbn [fst snd] in HK, Hk. unfold mbind. rewrite read_cell_wf by assumption.
      rewrite HK. cbn [when mret]. rewrite read_cell_wf by assumption.
      rewrite Hk. reflexivity. }
    unfold mbind. rewrite Hk. apply IH; [assumption|].
    intros d Hd. apply Hz. right. assumption.
Qed.

Lemma blast_zone_kingless b row col d :
  wf_board b -> on_board row col ->
  d ∈ directions ++ [(0, 0)] -> on_board (row + d.1) (col + d.2) ->
  char_in (cell (explode_board b row col) (row + d.1) (col + d.2)) "Pp " = true.
Proof.
  intros Hwf Hc Hd Hon. rewrite explode_cell by assumption.
  destruct ((row + d.1 =? row) && (col + d.2 =? col)) eqn:E; [reflexivity|].
  assert (adjacent row col (row + d.1) (col + d.2) = true) as ->.
  { rewrite <- directions_adjacent. apply existsb_exists. exists d.
    rewrite !Z.eqb_refl. split; [|reflexivity].
    apply elem_of_app in Hd as [Hd|Hd]; [apply list_elem_of_In, Hd|].
    apply list_elem_of_singleton in Hd. subst d. cbn [fst snd] in E.
    rewrite !Z.add_0_r, !Z.eqb_refl in E. discriminate. }
  cbn [andb].
  destruct (char_in (cell b (row + d.1) (col + d.2)) "Pp ") eqn:E'; cbn [negb].
  - assumption.
  - reflexivity.
Qed.

Lemma handle_explosion_wf g row col :
  wf_game g -> on_board row col ->
  handle_explosion row col g
  = (Ret tt, with_board g (explode_board (board g) row col)).
Proof.
  intros Hwf Hc. unfold handle_explosion, mbind.
  rewrite write_cell_wf by assumption.
  rewrite clear_loop by (apply wf_set_cell, Hwf).
  apply king_loop.
  - apply wf_explode_board, Hwf.
  - intros d Hd Hon. apply blast_zone_kingless; assumption.
Qed.

(** ** make_move, case by case *)

Lemma king_scan b : forall w k,
  fold_left (fun '(wk, bk) row =>
               (if list_in "K" row then true else wk,
                if list_in "k" row then true else bk)) b (w, k)
  = (w || king_present "K" b, k || king_present "k" b).
Proof.
  unfold king_present.
  induction b as [|row b IH]; intros w k; cbn [fold_left existsb].
  - rewrite !orb_false_r. reflexivity.
  - rewrite IH. destruct (list_in "K" row), (list_in "k" row), w, k; reflexivity.
Qed.

Lemma is_king_captured_spec g : is_king_captured g = king_missing (board g).
Proof. unfold is_king_captured. rewrite king_scan. reflexivity. Qed.

Lemma wf_with_board g b : wf_board b -> wf_game (with_board g b).
Proof. intros H. exact H. Qed.

Lemma wf_relocate b sr sc er ec : wf_board b -> wf_board (relocate b sr sc er ec).
Proof. intros H. unfold relocate. apply wf_set_cell, wf_set_cell, H. Qed.

Lemma wf_moved_board b sr sc er ec : wf_board b -> wf_board (moved_board b sr sc er ec).
Proof.
  intros H. unfold moved_board.
  destruct (is_blank _); [|apply wf_explode_board]; apply wf_relocate, H.
Qed.

Lemma make_move_finished g start end_ :
  game_state g <> UNFINISHED -> make_move start end_ g = (Ret false, g).
Proof.
  intros H. unfold make_move, mbind, reading.
  destruct (game_state g); [contradiction | reflexivity | reflexivity].
Qed.

Lemma make_move_rejected g start end_ :
  game_state g = UNFINISHED -> is_valid_move g start end_ <> Ret true ->
  make_move start end_ g
  = (match is_valid_move g start end_ with
     | Ret _ => Ret false
     | Raise x => Raise x
     | OutOfFuel => OutOfFuel
     end, g).
Proof.
  intros Hgs Hv. unfold make_move, mbind, reading. rewrite Hgs.
  cbn [outcome_eqb negb]. cbv beta iota.
  destruct (is_valid_move g start end_) as [[|]| |] eqn:E; try reflexivity.
  congruence.
Qed.

Lemma make_move_accepted g start end_ sr sc er ec :
  wf_game g -> game_state g = UNFINISHED ->
  is_valid_move g start end_ = Ret true ->
  convert_to_indices start = Ret (sr, sc) ->
  convert_to_indices end_ = Ret (er, ec) ->
  on_board sr sc -> on_board er ec ->
  make_move start end_ g = (Ret true, after_move g sr sc er ec).
Proof.
  intros Hwf Hgs Hv Hs He Hstart Hend.
  unfold make_move, mbind, reading. rewrite Hgs.
  cbn [outcome_eqb negb]. cbv beta iota. rewrite Hv.
  cbn [negb]. cbv beta iota. rewrite Hs, He. cbv beta iota.
  rewrite !read_cell_wf by assumption.
  rewrite write_cell_wf by assumption.
  rewrite write_cell_wf by (assumption || exact (wf_set_cell _ _ _ _ Hwf)).
  unfold after_move, moved_board.
  change (set_cell (board (with_board g (set_cell (board g) er ec (cell (board g) sr sc))))
            sr sc " ")
    with (relocate (board g) sr sc er ec).
  destruct (is_blank (cell (board g) er ec)); cbn [negb when mret].
  - cbn [set_turn turn with_board board game_state].
    rewrite is_king_captured_spec. cbn [board].
    destruct (king_missing (relocate (board g) sr sc er ec)), (turn g); reflexivity.
  - rewrite handle_explosion_wf
      by (assumption || exact (wf_relocate _ sr sc er ec Hwf)).
    cbn [set_turn turn with_board board game_state].
    rewrite is_king_captured_spec. cbn [board].
    destruct (king_missing (explode_board (relocate (board g) sr sc er ec) er ec)),
      (turn g); reflexivity.
Qed.

(** Every call on a well-formed instance either leaves it as it was and does
    not answer [True], or answers [True] and leaves [after_move]. *)
Lemma make_move_cases g start end_ :
  wf_game g ->
  ((make_move start end_ g).1 <> Ret true /\ (make_move start end_ g).1 <> OutOfFuel
   /\ (make_move start end_ g).2 = g)
  \/ (exists sr sc er ec,
        game_state g = UNFINISHED
        /\ is_valid_move g start end_ = Ret true
        /\ convert_to_indices start = Ret (sr, sc)
        /\ convert_to_indices end_ = Ret (er, ec)
        /\ on_board sr sc /\ on_board er ec /\ (sr <> er \/ sc <> ec)
        /\ is_blank (cell (board g) sr sc) = false
        /\ make_move start end_ g = (Ret true, after_move g sr sc er ec)).
Proof.
  intros Hwf.
  assert (game_state g = UNFINISHED \/ game_state g <> UNFINISHED) as [Hgs|Hgs]
    by (destruct (game_state g); (left; reflexivity) || (right; discriminate));
    [|left; rewrite make_move_finished by assumption; repeat split; discriminate].
  destruct (is_valid_move_cases g start end_ Hwf)
    as [[x Hx]|[Hf|[Hv (sr & sc & er & ec & Hs & He & H1 & H2 & Hne & Hb)]]].
  - left. rewrite make_move_rejected by (assumption || (rewrite Hx; discriminate)).
    rewrite Hx. repeat split; discriminate.
  - left. rewrite make_move_rejected by (assumption || (rewrite Hf; discriminate)).
    rewrite Hf. repeat split; discriminate.
  - right. exists sr, sc, er, ec. repeat (split; [assumption|]).
    apply make_move_accepted; assumption.
Qed.

Lemma wf_init : wf_game init.
Proof. split; [reflexivity|]. repeat constructor. Qed.

Lemma wf_after_move g sr sc er ec : wf_game g -> wf_game (after_move g sr sc er ec).
Proof. intros H. apply wf_moved_board, H. Qed.

Lemma make_move_wf g start end_ : wf_game g -> wf_game (make_move start end_ g).2.
Proof.
  intros Hwf. destruct (make_move_cases g start end_ Hwf)
    as [(_ & _ & ->)|(sr & sc & er & ec & _ & _ & _ & _ & _ & _ & _ & _ & ->)].
  - assumption.
  - apply wf_after_move, Hwf.
Qed.

Lemma reachable_wf g : reachable g -> wf_game g.
Proof. induction 1; [apply wf_init | apply make_move_wf; assumption]. Qed.

(** ** Counting occupied cells *)

Lemma sum_list_alter {A} (f : A -> nat) (h : A -> A) l : forall i y,
  l !! i = Some y ->
  (sum_list (map f (alter h i l)) + f y = sum_list (map f l) + f (h y))%nat.
Proof.
  induction l as [|a l IH]; intros [|i] y Hl; try discriminate.
  - injection Hl as ->. cbn. lia.
  - specialize (IH i y Hl).
    change (sum_list (map f (alter h (S i) (a :: l))))
      with (f a + sum_list (map f (alter h i l)))%nat.
    change (sum_list (map f (a :: l))) with (f a + sum_list (map f l))%nat. lia.
Qed.

Lemma sum_list_insert {A} (f : A -> nat) l : forall i (x y : A),
  l !! i = Some y ->
  (sum_list (map f (<[i := x]> l)) + f y = sum_list (map f l) + f x)%nat.
Proof.
  induction l as [|a l IH]; intros [|i] x y Hl; try discriminate.
  - injection Hl as ->. cbn. lia.
  - specialize (IH i x y Hl).
    change (sum_list (map f (<[S i := x]> (a :: l))))
      with (f a + sum_list (map f (<[i := x]> l)))%nat.
    change (sum_list (map f (a :: l))) with (f a + sum_list (map f l))%nat. lia.
Qed.

Lemma occupied_set_cell b r c x :
  wf_board b -> on_board r c ->
  (occupied (set_cell b r c x) + occ (cell b r c) = occupied b + occ x)%nat.
Proof.
  intros Hwf Hrc. destruct (wf_cell b r c Hwf Hrc) as (row & Hrow & _ & Hx).
  unfold occupied, set_cell.
  pose proof (sum_list_alter (fun row => sum_list (map occ row))
                (fun row => <[Z.to_nat c := x]> row) b _ _ Hrow) as H1.
  pose proof (sum_list_insert occ row _ x _ Hx) as H2.
  cbv beta in H1. lia.
Qed.

Lemma relocate_cell b sr sc er ec r c :
  wf_board b -> on_board sr sc -> on_board er ec -> on_board r c ->
  cell (relocate b sr sc er ec) r c
  = if (r =? sr) && (c =? sc) then " "%char
    else if (r =? er) && (c =? ec) then cell b sr sc
    else cell b r c.
Proof.
  intros Hwf H1 H2 H3. unfold relocate.
  rewrite !cell_set_cell by (assumption || apply wf_set_cell, Hwf). reflexivity.
Qed.

Lemma occupied_relocate b sr sc er ec :
  wf_board b -> on_board sr sc -> on_board er ec ->
  (occupied (relocate b sr sc er ec) + occ (cell b er ec) = occupied b)%nat.
Proof.
  intros Hwf H1 H2. unfold relocate.
  pose proof (occupied_set_cell b er ec (cell b sr sc) Hwf H2) as E1.
  pose proof (occupied_set_cell _ sr sc " " (wf_set_cell b er ec (cell b sr sc) Hwf) H1)
    as E2.
  rewrite cell_set_cell in E2 by assumption.
  change (occ " ") with 0%nat in E2.
  destruct ((sr =? er) && (sc =? ec)) eqn:E; [lia|].
  lia.
Qed.

Lemma occupied_blast_one row col b d :
  wf_board b -> (occupied (blast_one row col b d) <= occupied b)%nat.
Proof.
  intros Hwf. unfold blast_one.
  destruct (in_range (row + d.1)) eqn:E1, (in_range (col + d.2)) eqn:E2;
    cbn [andb]; try lia.
  destruct (negb _); [|lia].
  apply in_range_spec in E1, E2.
  pose proof (occupied_set_cell b (row + d.1) (col + d.2) " " Hwf (conj E1 E2)).
  change (occ " ") with 0%nat in *. lia.
Qed.

Lemma occupied_fold_blast row col ds : forall b,
  wf_board b -> (occupied (fold_left (blast_one row col) ds b) <= occupied b)%nat.
Proof.
  induction ds as [|d ds IH]; intros b Hwf; cbn [fold_left]; [lia|].
  etrans; [apply IH, wf_blast_one, Hwf | apply occupied_blast_one, Hwf].
Qed.

Lemma occupied_explode b row col :
  wf_board b -> on_board row col ->
  (occupied (explode_board b row col) <= occupied b)%nat.
Proof.
  intros Hwf Hc. unfold explode_board.
  etrans; [apply occupied_fold_blast, wf_set_cell, Hwf|].
  pose proof (occupied_set_cell b row col " " Hwf Hc).
  change (occ " ") with 0%nat in *. lia.
Qed.

Lemma occupied_moved_board b sr sc er ec :
  wf_board b -> on_board sr sc -> on_board er ec ->
  (occupied (moved_board b sr sc er ec) <= occupied b)%nat.
Proof.
  intros Hwf H1 H2. unfold moved_board.
  pose proof (occupied_relocate b sr sc er ec Hwf H1 H2).
  destruct (is_blank (cell b er ec)); [lia|].
  etrans; [apply occupied_explode; [apply wf_relocate, Hwf | assumption]|]. lia.
Qed.

Lemma pawn_or_blank x : char_in x "Pp " = is_pawn x || is_blank x.
Proof.
  unfold char_in, is_pawn, is_blank. cbn [list_ascii_of_string existsb].
  rewrite orb_false_r, orb_assoc. reflexivity.
Qed.

(** The squares of [between] are the squares at distance 1 .. n-1 from the
    start, in the direction of the end. *)
Lemma elem_of_between sr sc er ec sq :
  sq ∈ between sr sc er ec <->
  exists j, 0 < j < Z.max (Z.abs (er - sr)) (Z.abs (ec - sc))
            /\ sq = (sr + j * Z.sgn (er - sr), sc + j * Z.sgn (ec - sc)).
Proof.
  unfold between. rewrite elem_of_line. split.
  - intros (j & Hj & ->). exists (Z.of_nat j + 1). split; [lia|]. f_equal; lia.
  - intros (j & Hj & ->). exists (Z.to_nat (j - 1)). split; [lia|]. f_equal; lia.
Qed.

(** ** Properties of the engine *)

(** X11.  No loop of [make_move] is ever left unfinished: on a well-formed
    instance the path loops of the validator end within the sixteen
    iterations granted, so every call answers or raises. *)
Theorem make_move_total g start end_ :
  wf_game g -> (make_move start end_ g).1 <> OutOfFuel.
Proof.
  intros Hwf. destruct (make_move_cases g start end_ Hwf)
    as [(_ & H & _)|(sr & sc & er & ec & _ & _ & _ & _ & _ & _ & _ & _ & ->)].
  - assumption.
  - discriminate.
Qed.

(** X10.  A call that does not answer [True] changes nothing, whether it
    answers [False] or raises. *)
Theorem make_move_unchanged g start end_ :
  wf_game g -> (make_move start end_ g).1 <> Ret true ->
  (make_move start end_ g).2 = g.
Proof.
  intros Hwf Hr. destruct (make_move_cases g start end_ Hwf)
    as [(_ & _ & H)|(sr & sc & er & ec & _ & _ & _ & _ & _ & _ & _ & _ & E)].
  - assumption.
  - rewrite E in Hr. contradiction.
Qed.

(** [_handle_explosion] never assigns [_game_state]: by the time its second
    loop looks for a king, the first has cleared every king of the zone. *)
Theorem handle_explosion_keeps_game_state g row col :
  wf_game g -> on_board row col ->
  (handle_explosion row col g).1 = Ret tt
  /\ game_state (handle_explosion row col g).2 = game_state g.
Proof.
  intros Hwf Hc. rewrite handle_explosion_wf by assumption. split; reflexivity.
Qed.

(** Whenever an accepted move leaves a king missing, the win goes to the side
    that moved, whichever king is missing. *)
Theorem missing_king_credits_mover g start end_ :
  wf_game g -> (make_move start end_ g).1 = Ret true ->
  king_missing (board (make_move start end_ g).2) = true ->
  game_state (make_move start end_ g).2 = win_of (turn g).
Proof.
  intros Hwf Hr Hk. destruct (make_move_cases g start end_ Hwf)
    as [(H & _ & _)|(sr & sc & er & ec & _ & _ & _ & _ & _ & _ & _ & _ & E)].
  - contradiction.
  - rewrite E in *. cbn [snd after_move board game_state] in *.
    rewrite Hk. reflexivity.
Qed.

(** ** The claims *)

(** C1 (the code departs from the claim).  Claim: after a successful
    [make_move] that leaves a king absent, the game state is the win of the
    colour opposite the absent king.  In the recorded game [own_king_blast]
    every move is accepted, the last one (White's c2 takes d3) destroys
    White's own king on e2 while Black's king stands, and the state is
    [WHITE_WON]: the fallback test credits the side that moved. *)
Theorem own_king_blast_credits_white :
  play own_king_blast init
  = (Ret [true; true; true; true; true; true; true], after_blast)
  /\ king_present "K" (board after_blast) = false
  /\ king_present "k" (board after_blast) = true
  /\ game_state after_blast = WHITE_WON.
Proof. vm_compute. repeat split. Qed.

(** C2 (the code departs from the claim).  Claim: a king standing in the blast
    zone before the blast makes explosion resolution itself set the outcome
    to the win of the other colour.  When White plays c2 takes d3 in
    [before_blast], the white king is in the zone of d3 on the board the
    resolver receives, the resolver removes it, and leaves the game state
    [UNFINISHED]. *)
Theorem blast_leaves_state_unfinished :
  let b := relocate (board before_blast) 6 2 5 3 in
  let r := handle_explosion 5 3 (with_board before_blast b) in
  is_valid_move before_blast "c2" "d3" = Ret true
  /\ king_in_zone b WHITE 5 3 = true
  /\ r.1 = Ret tt
  /\ king_present "K" (board r.2) = false
  /\ game_state r.2 = UNFINISHED.
Proof. vm_compute. repeat split. Qed.

(** C3 (the code departs from the claim).  Claim: notation off the 8x8 board,
    or malformed, makes [make_move] answer [False] without raising.  Rank 0
    and file i are off the board and the call raises [IndexError]; a
    one-character string raises [ValueError].  The instance is left as it
    was. *)
Theorem off_board_notation_raises :
  convert_to_indices "a0" = Ret (8, 0)
  /\ make_move "a0" "a1" init = (Raise IndexError, init)
  /\ convert_to_indices "i1" = Ret (7, 8)
  /\ make_move "i1" "a1" init = (Raise IndexError, init)
  /\ make_move "e" "a1" init = (Raise ValueError, init).
Proof. vm_compute. repeat split. Qed.

(** C4, as stated, fails: in [pawn_behind_pawn] the white pawn on e2 may move
    diagonally to d3, which holds a white pawn, not an enemy piece. *)
Lemma pawn_takes_own_pawn :
  ~ (cell (board pawn_behind_pawn) 6 4 = piece_of (turn pawn_behind_pawn) "P" ->
     (is_valid_move pawn_behind_pawn "e2" "d3" = Ret true
      <-> belongs_to (other (turn pawn_behind_pawn))
            (cell (board pawn_behind_pawn) 5 3) = true)).
Proof.
  intros H. specialize (H eq_refl). vm_compute in H.
  destruct H as [H _]. discriminate (H eq_refl).
Qed.

(** C4 (amended).  For a pawn of the player to move, between squares of the
    board: a one-square diagonally-forward move is legal iff the destination
    is occupied, by a piece of either colour; a one-square straight-forward
    move is legal iff the destination is empty; the two-square move from the
    home row is legal iff the intermediate square and the destination are
    both empty. *)
Theorem pawn_moves g start end_ sr sc er ec :
  wf_game g ->
  convert_to_indices start = Ret (sr, sc) ->
  convert_to_indices end_ = Ret (er, ec) ->
  on_board sr sc -> on_board er ec ->
  cell (board g) sr sc = piece_of (turn g) "P" ->
  (er = sr + forward (turn g) -> Z.abs (ec - sc) = 1 ->
   is_valid_move g start end_ = Ret (negb (is_blank (cell (board g) er ec))))
  /\ (er = sr + forward (turn g) -> ec = sc ->
      is_valid_move g start end_ = Ret (is_blank (cell (board g) er ec)))
  /\ (sr = home_row (turn g) -> er = sr + 2 * forward (turn g) -> ec = sc ->
      is_valid_move g start end_
      = Ret (is_blank (cell (board g) (sr + forward (turn g)) sc)
             && is_blank (cell (board g) er ec))).
Proof.
  intros Hwf Hs He H1 H2 Hp.
  assert (forward (turn g) = 1 \/ forward (turn g) = -1) as Hf
    by (destruct (turn g); [right | left]; reflexivity).
  repeat split; intros;
    rewrite (pawn_legal g Hwf start end_ sr sc er ec) by (assumption || lia);
    f_equal;
    repeat match goal with
           | |- context [Z.eqb ?a ?b] => destruct (Z.eqb_spec a b); try lia
           end;
    cbn [andb orb];
    repeat match goal with
           | |- context [is_blank ?x] => destruct (is_blank x)
           end;
    reflexivity.
Qed.

Lemma pawn_moves_witness :
  wf_game init
  /\ is_valid_move init "e2" "e4" = Ret true
  /\ is_valid_move init "e2" "e3" = Ret true
  /\ is_valid_move init "e2" "d3" = Ret false.
Proof.
  split; [apply wf_init|].
  assert (on_board 6 4 /\ on_board 4 4 /\ on_board 5 4 /\ on_board 5 3)
    as (O1 & O2 & O3 & O4) by (unfold on_board; lia).
  split; [|split].
  - exact (proj2 (proj2 (pawn_moves init "e2" "e4" 6 4 4 4
                           wf_init eq_refl eq_refl O1 O2 eq_refl))
             eq_refl eq_refl eq_refl).
  - exact (proj1 (proj2 (pawn_moves init "e2" "e3" 6 4 5 4
                           wf_init eq_refl eq_refl O1 O3 eq_refl))
             eq_refl eq_refl).
  - exact (proj1 (pawn_moves init "e2" "d3" 6 4 5 3
                    wf_init eq_refl eq_refl O1 O4 eq_refl)
             eq_refl eq_refl).
Defined.

(** C5, as stated, fails: from the initial position the knight on b1 may move
    to d2, which holds a white pawn. *)
Lemma knight_takes_own_pawn :
  ~ (cell (board init) 7 1 = piece_of (turn init) "N" ->
     l_shape 7 1 6 3 = true ->
     belongs_to (turn init) (cell (board init) 6 3) = true ->
     is_valid_move init "b1" "d2" = Ret false).
Proof.
  intros H. specialize (H eq_refl eq_refl eq_refl). vm_compute in H.
  discriminate.
Qed.

(** C5 (amended).  For a knight of the player to move, every L-shaped move
    between squares of the board is legal, whatever the destination holds: it
    may be empty, hold an enemy piece, or hold a piece of the mover's own
    colour.  The turn-colour check looks at the moved piece only. *)
Theorem knight_moves g start end_ sr sc er ec :
  wf_game g ->
  convert_to_indices start = Ret (sr, sc) ->
  convert_to_indices end_ = Ret (er, ec) ->
  on_board sr sc -> on_board er ec ->
  cell (board g) sr sc = piece_of (turn g) "N" ->
  l_shape sr sc er ec = true ->
  is_valid_move g start end_ = Ret true.
Proof.
  intros Hwf Hs He H1 H2 Hp HL.
  rewrite (knight_legal g Hwf start end_ sr sc er ec), HL; try assumption;
    try reflexivity.
  unfold l_shape in HL.
  destruct (Z.eqb_spec (Z.abs (er - sr)) 2), (Z.eqb_spec (Z.abs (er - sr)) 1);
    try lia; discriminate.
Qed.

Lemma knight_moves_witness :
  wf_game init
  /\ is_valid_move init "b1" "d2" = Ret true
  /\ is_valid_move init "b1" "c3" = Ret true.
Proof.
  assert (on_board 7 1 /\ on_board 6 3 /\ on_board 5 2)
    as (O1 & O2 & O3) by (unfold on_board; lia).
  split; [apply wf_init|]. split.
  - exact (knight_moves init "b1" "d2" 7 1 6 3
             wf_init eq_refl eq_refl O1 O2 eq_refl eq_refl).
  - exact (knight_moves init "b1" "c3" 7 1 5 2
             wf_init eq_refl eq_refl O1 O3 eq_refl eq_refl).
Defined.

(** C6.  For every accepted capture (the destination is occupied before the
    move): on the board [before] that explosion resolution receives, the
    capturing piece, whatever its kind, stands on the centre square where the
    captured piece stood, and the source square is empty; on the board
    [after] the centre is empty, every neighbour of the centre on the board
    that is not a pawn is empty, every pawn on a neighbour is still there, and
    every other square is as it was. *)
Theorem capture_blast g start end_ sr sc er ec :
  wf_game g ->
  convert_to_indices start = Ret (sr, sc) ->
  convert_to_indices end_ = Ret (er, ec) ->
  is_blank (cell (board g) er ec) = false ->
  (make_move start end_ g).1 = Ret true ->
  let before := relocate (board g) sr sc er ec in
  let after := board (make_move start end_ g).2 in
  cell before er ec = cell (board g) sr sc
  /\ cell before sr sc = " "%char
  /\ (forall r c, on_board r c -> (r <> sr \/ c <> sc) -> (r <> er \/ c <> ec) ->
                  cell before r c = cell (board g) r c)
  /\ cell after er ec = " "%char
  /\ (forall r c, on_board r c -> adjacent er ec r c = true ->
                  cell after r c
                  = if is_pawn (cell before r c) then cell before r c else " "%char)
  /\ (forall r c, on_board r c -> adjacent er ec r c = false ->
                  (r <> er \/ c <> ec) ->
                  cell after r c = cell before r c).
Proof.
  intros Hwf Hs He Hocc Hr before after.
  destruct (make_move_cases g start end_ Hwf)
    as [(H & _ & _)|(sr' & sc' & er' & ec' & _ & _ & Hs' & He' & H1 & H2 & Hne & _ & E)];
    [contradiction|].
  rewrite Hs in Hs'. rewrite He in He'.
  injection Hs' as <- <-. injection He' as <- <-.
  assert (wf_board (relocate (board g) sr sc er ec)) as Hwf'
    by apply wf_relocate, Hwf.
  assert (after = explode_board before er ec) as ->.
  { subst after. rewrite E. cbn [snd after_move board]. unfold moved_board.
    rewrite Hocc. reflexivity. }
  subst before. repeat split.
  - rewrite relocate_cell by assumption.
    destruct H1, H2.
    destruct (Z.eqb_spec er sr), (Z.eqb_spec ec sc); cbn [andb]; try lia;
      rewrite !Z.eqb_refl; reflexivity.
  - rewrite relocate_cell by assumption. rewrite !Z.eqb_refl. reflexivity.
  - intros r c Hrc Hn1 Hn2. rewrite relocate_cell by assumption.
    destruct (Z.eqb_spec r sr), (Z.eqb_spec c sc), (Z.eqb_spec r er), (Z.eqb_spec c ec);
      cbn [andb]; try lia; reflexivity.
  - rewrite explode_cell by assumption. rewrite !Z.eqb_refl. reflexivity.
  - intros r c Hrc Hadj. rewrite explode_cell by assumption.
    rewrite Hadj, pawn_or_blank. cbn [andb].
    assert ((r =? er) && (c =? ec) = false) as ->.
    { unfold adjacent in Hadj. destruct ((r =? er) && (c =? ec)); [|reflexivity].
      rewrite andb_false_r in Hadj. discriminate. }
    destruct (is_pawn (cell (relocate (board g) sr sc er ec) r c)); cbn [orb negb];
      [reflexivity|].
    destruct (is_blank (cell (relocate (board g) sr sc er ec) r c)) eqn:Hb;
      cbn [negb]; [|reflexivity].
    apply is_blank_spec in Hb. assumption.
  - intros r c Hrc Hadj Hn. rewrite explode_cell by assumption.
    rewrite Hadj. cbn [andb].
    destruct (Z.eqb_spec r er), (Z.eqb_spec c ec); cbn [andb]; try lia; reflexivity.
Qed.

Lemma capture_blast_witness :
  wf_game before_blast
  /\ cell (board after_blast) 5 3 = " "%char
  /\ cell (board after_blast) 6 4 = " "%char
  /\ cell (board after_blast) 6 3 = "P"%char.
Proof.
  assert (wf_game before_blast) as Hwf
    by (split; [reflexivity | vm_compute; repeat constructor]).
  assert (on_board 6 4 /\ on_board 6 3) as (O1 & O2) by (unfold on_board; lia).
  pose proof (capture_blast before_blast "c2" "d3" 6 2 5 3
                Hwf eq_refl eq_refl eq_refl eq_refl) as (_ & _ & _ & Hc & Hadj & _).
  split; [exact Hwf|]. split; [exact Hc|]. split.
  - exact (Hadj 6 4 O1 eq_refl).
  - exact (Hadj 6 3 O2 eq_refl).
Defined.

(** C7.  For a bishop, rook or queen of the player to move, between distinct
    squares of the board: if any square strictly between start and end is
    occupied, by a piece of either colour, the move is rejected; if all of
    them are empty, a bishop move is legal iff the two deltas have equal
    absolute value, a rook move iff exactly one delta is zero, and a queen
    move iff one of the two holds. *)
Theorem sliding_moves g start end_ sr sc er ec k :
  wf_game g ->
  convert_to_indices start = Ret (sr, sc) ->
  convert_to_indices end_ = Ret (er, ec) ->
  on_board sr sc -> on_board er ec -> sr <> er \/ sc <> ec ->
  cell (board g) sr sc = piece_of (turn g) k ->
  k = "B"%char \/ k = "R"%char \/ k = "Q"%char ->
  (path_clear (board g) sr sc er ec = false ->
   is_valid_move g start end_ = Ret false)
  /\ (path_clear (board g) sr sc er ec = true ->
      (k = "B"%char -> is_valid_move g start end_ = Ret (diagonal sr sc er ec))
      /\ (k = "R"%char -> is_valid_move g start end_ = Ret (straight sr sc er ec))
      /\ (k = "Q"%char ->
          is_valid_move g start end_
          = Ret (diagonal sr sc er ec || straight sr sc er ec))).
Proof.
  intros Hwf Hs He H1 H2 Hne Hp Hk.
  rewrite (slider_legal g Hwf start end_ sr sc er ec Hs He H1 H2 Hne k Hk Hp).
  split; intros ->.
  - rewrite andb_false_r. reflexivity.
  - rewrite andb_true_r. unfold slide_shape.
    repeat split; intros ->; char_eval; cbn [andb orb];
      destruct (diagonal sr sc er ec), (straight sr sc er ec); reflexivity.
Qed.

Lemma sliding_moves_witness :
  wf_game pawn_behind_pawn
  /\ path_clear (board pawn_behind_pawn) 7 2 3 6 = true
  /\ is_valid_move pawn_behind_pawn "c1" "g5" = Ret true
  /\ path_clear (board pawn_behind_pawn) 7 0 5 0 = false
  /\ is_valid_move pawn_behind_pawn "a1" "a3" = Ret false.
Proof.
  assert (wf_game pawn_behind_pawn) as Hwf
    by (split; [reflexivity | vm_compute; repeat constructor]).
  assert (on_board 7 2 /\ on_board 3 6 /\ on_board 7 0 /\ on_board 5 0)
    as (O1 & O2 & O3 & O4) by (unfold on_board; lia).
  assert (7 <> 3 /\ 7 <> 5) as (N1 & N2) by lia.
  split; [exact Hwf|]. split; [reflexivity|]. split; [|split; [reflexivity|]].
  - exact (proj1 (proj2 (sliding_moves pawn_behind_pawn "c1" "g5" 7 2 3 6 "B"
                           Hwf eq_refl eq_refl O1 O2 (or_introl N1)
                           eq_refl (or_introl eq_refl)) eq_refl) eq_refl).
  - exact (proj1 (sliding_moves pawn_behind_pawn "a1" "a3" 7 0 5 0 "R"
                    Hwf eq_refl eq_refl O3 O4 (or_introl N2)
                    eq_refl (or_intror (or_introl eq_refl))) eq_refl).
Defined.

(** C8.  Once the game state is not [UNFINISHED], every call of [make_move]
    answers [False] and leaves board, turn and game state as they were. *)
Theorem finished_game_rejects g start end_ :
  game_state g <> UNFINISHED ->
  make_move start end_ g = (Ret false, g).
Proof. apply make_move_finished. Qed.

Lemma finished_game_rejects_witness :
  game_state after_blast <> UNFINISHED
  /\ make_move "a7" "a6" after_blast = (Ret false, after_blast).
Proof.
  assert (game_state after_blast <> UNFINISHED) as H by (vm_compute; discriminate).
  split; [exact H|]. exact (finished_game_rejects after_blast "a7" "a6" H).
Defined.

(** C9.  The turn changes iff [make_move] answers [True]: a call that answers
    [True] leaves the turn with the other colour, a call that answers [False]
    leaves the turn as it was, and the turn differs after the call only if
    the answer was [True]. *)
Theorem turn_flips_iff_accepted g start end_ :
  wf_game g ->
  ((make_move start end_ g).1 = Ret true ->
   turn (make_move start end_ g).2 = other (turn g))
  /\ ((make_move start end_ g).1 = Ret false ->
      turn (make_move start end_ g).2 = turn g)
  /\ (turn (make_move start end_ g).2 <> turn g <->
      (make_move start end_ g).1 = Ret true).
Proof.
  intros Hwf. destruct (make_move_cases g start end_ Hwf)
    as [(H & _ & E)|(sr & sc & er & ec & _ & _ & _ & _ & _ & _ & _ & _ & E)].
  - rewrite E. repeat split; try contradiction; try reflexivity;
      try (intros H'; contradiction H'; reflexivity).
  - rewrite E. cbn [fst snd after_move turn]. repeat split; try discriminate.
    destruct (turn g); discriminate.
Qed.

Lemma turn_flips_iff_accepted_witness :
  wf_game init
  /\ turn (make_move "d2" "d4" init).2 = BLACK
  /\ turn (make_move "e2" "e5" init).2 = WHITE.
Proof.
  split; [apply wf_init|]. split.
  - exact (proj1 (turn_flips_iff_accepted init "d2" "d4" wf_init) eq_refl).
  - exact (proj1 (proj2 (turn_flips_iff_accepted init "e2" "e5" wf_init)) eq_refl).
Defined.

(** C10.  On every instance reached from the initial position, no call of
    [make_move] increases the number of occupied cells. *)
Theorem occupied_never_increases g start end_ :
  reachable g ->
  (occupied (board (make_move start end_ g).2) <= occupied (board g))%nat.
Proof.
  intros Hg. pose proof (reachable_wf g Hg) as Hwf.
  destruct (make_move_cases g start end_ Hwf)
    as [(_ & _ & ->)|(sr & sc & er & ec & _ & _ & _ & _ & H1 & H2 & _ & _ & ->)].
  - lia.
  - cbn [snd after_move board]. apply occupied_moved_board; assumption.
Qed.

Lemma occupied_never_increases_witness :
  reachable init
  /\ (occupied (board (make_move "b1" "d2" init).2) <= occupied (board init))%nat.
Proof.
  split; [apply reachable_init|].
  exact (occupied_never_increases init "b1" "d2" reachable_init).
Defined.

(** ** Further properties: notation *)




(** ** Further properties: the validator *)

(** X3.  A king of the player to move, between distinct squares of the board,
    may move iff both deltas are at most 1 in absolute value and the
    destination is empty: a king never captures. *)
Theorem king_moves g start end_ sr sc er ec :
  wf_game g ->
  convert_to_indices start = Ret (sr, sc) ->
  convert_to_indices end_ = Ret (er, ec) ->
  on_board sr sc -> on_board er ec -> sr <> er \/ sc <> ec ->
  cell (board g) sr sc = piece_of (turn g) "K" ->
  is_valid_move g start end_
  = Ret ((Z.abs (er - sr) <=? 1) && (Z.abs (ec - sc) <=? 1)
         && is_blank (cell (board g) er ec)).
Proof.
  intros Hwf Hs He H1 H2 Hne Hp.
  rewrite (is_valid_move_on_board g Hwf start end_ sr sc er ec) by assumption.
  rewrite after_pawn_spec by assumption. rewrite Hp.
  destruct (turn g); char_eval; cbn [andb orb negb];
    destruct (is_blank (cell (board g) er ec)); cbn [negb];
    rewrite ?andb_true_r, ?andb_false_r; reflexivity.
Qed.

Lemma king_moves_witness :
  wf_game before_blast
  /\ is_valid_move before_blast "e2" "e3" = Ret true
  /\ is_valid_move before_blast "e2" "d3" = Ret false.
Proof.
  assert (wf_game before_blast) as Hwf
    by (split; [reflexivity | vm_compute; repeat constructor]).
  assert (on_board 6 4 /\ on_board 5 4 /\ on_board 5 3)
    as (O1 & O2 & O3) by (unfold on_board; lia).
  assert (6 <> 5) as N by lia.
  split; [exact Hwf|]. split.
  - exact (king_moves before_blast "e2" "e3" 6 4 5 4
             Hwf eq_refl eq_refl O1 O2 (or_introl N) eq_refl).
  - exact (king_moves before_blast "e2" "d3" 6 4 5 3
             Hwf eq_refl eq_refl O1 O3 (or_introl N) eq_refl).
Defined.

Lemma caseless_is_no_piece x :
  isupper x = false -> islower x = false ->
  upper x = x
  /\ Ascii.eqb x "K" = false /\ Ascii.eqb x "P" = false /\ Ascii.eqb x "N" = false
  /\ char_in x "BRQ" = false.
Proof.
  intros Hu Hl. split; [unfold upper; rewrite Hl; reflexivity|].
  unfold char_in. cbn [list_ascii_of_string existsb].
  repeat match goal with
         | |- context [Ascii.eqb x ?l] =>
             destruct (Ascii.eqb_spec x l) as [E|_];
             [rewrite E in Hu; vm_compute in Hu; discriminate|]
         end.
  repeat split; reflexivity.
Qed.

(** X4.  Only the mover's own pieces move: when the start square, on the
    board, is empty or holds a piece that is not of the colour to move, the
    validator answers [False], whatever the destination on the board. *)
Theorem only_own_pieces_move g start end_ sr sc er ec :
  wf_game g ->
  convert_to_indices start = Ret (sr, sc) ->
  convert_to_indices end_ = Ret (er, ec) ->
  on_board sr sc -> on_board er ec ->
  belongs_to (turn g) (cell (board g) sr sc) = false ->
  is_valid_move g start end_ = Ret false.
Proof.
  intros Hwf Hs He H1 H2 Hb.
  unfold is_valid_move. rewrite Hs, He. cbn [rbind].
  rewrite !getitem2_wf by assumption. cbn [rbind].
  set (piece := cell (board g) sr sc) in *.
  assert ((color_eqb (turn g) WHITE && islower piece
           || color_eqb (turn g) BLACK && isupper piece) = false ->
          isupper piece = false /\ islower piece = false) as Hcase.
  { destruct (turn g); cbn [belongs_to color_eqb andb orb] in *; intros H.
    - rewrite orb_false_r in H. split; assumption.
    - split; assumption. }
  destruct (color_eqb (turn g) WHITE && islower piece
            || color_eqb (turn g) BLACK && isupper piece); [reflexivity|].
  destruct (Hcase eq_refl) as [Hu Hl].
  destruct (caseless_is_no_piece piece Hu Hl) as (Hup & HK & HP & HN & HB).
  destruct (_ || _); [reflexivity|].
  unfold after_pawn. rewrite Hup, HK, HP, HN, HB. reflexivity.
Qed.

Lemma only_own_pieces_move_witness :
  wf_game init
  /\ is_valid_move init "e7" "e5" = Ret false
  /\ is_valid_move init "e4" "e5" = Ret false.
Proof.
  assert (on_board 1 4 /\ on_board 3 4 /\ on_board 4 4)
    as (O1 & O2 & O3) by (unfold on_board; lia).
  split; [apply wf_init|]. split.
  - exact (only_own_pieces_move init "e7" "e5" 1 4 3 4
             wf_init eq_refl eq_refl O1 O2 eq_refl).
  - exact (only_own_pieces_move init "e4" "e5" 4 4 3 4
             wf_init eq_refl eq_refl O3 O2 eq_refl).
Defined.

(** X5.  A move from a square of the board to the same square is never
    legal. *)
Theorem null_move_rejected g s r c :
  wf_game g -> convert_to_indices s = Ret (r, c) -> on_board r c ->
  is_valid_move g s s = Ret false.
Proof.
  intros Hwf Hs Hrc. unfold is_valid_move. rewrite Hs. cbn [rbind].
  rewrite !getitem2_wf by assumption. cbn [rbind].
  rewrite String.eqb_refl. cbn [orb].
  destruct (_ || _); reflexivity.
Qed.

Lemma null_move_rejected_witness :
  wf_game init /\ is_valid_move init "e2" "e2" = Ret false.
Proof.
  assert (on_board 6 4) as O by (unfold on_board; lia).
  split; [apply wf_init|].
  exact (null_move_rejected init "e2" 6 4 wf_init eq_refl O).
Defined.

(** X6.  A knight of the player to move, between distinct squares of the
    board, may move iff the move is L-shaped: every other geometry is
    rejected. *)
Theorem knight_moves_only_l_shaped g start end_ sr sc er ec :
  wf_game g ->
  convert_to_indices start = Ret (sr, sc) ->
  convert_to_indices end_ = Ret (er, ec) ->
  on_board sr sc -> on_board er ec -> sr <> er \/ sc <> ec ->
  cell (board g) sr sc = piece_of (turn g) "N" ->
  is_valid_move g start end_ = Ret (l_shape sr sc er ec).
Proof. intros. apply knight_legal; assumption. Qed.

Lemma knight_moves_only_l_shaped_witness :
  wf_game init /\ is_valid_move init "b1" "b3" = Ret false.
Proof.
  assert (on_board 7 1 /\ on_board 5 1) as (O1 & O2) by (unfold on_board; lia).
  assert (7 <> 5) as N by lia.
  split; [apply wf_init|].
  exact (knight_moves_only_l_shaped init "b1" "b3" 7 1 5 1
           wf_init eq_refl eq_refl O1 O2 (or_introl N) eq_refl).
Defined.

(** X7.  A pawn only ever advances: a legal move of a pawn of the player to
    move goes one row forward to the same or a neighbouring column, or two
    rows forward in its column from its home row.  It never moves backward
    or sideways, and never more than one column. *)
Theorem pawn_only_advances g start end_ sr sc er ec :
  wf_game g ->
  convert_to_indices start = Ret (sr, sc) ->
  convert_to_indices end_ = Ret (er, ec) ->
  on_board sr sc -> on_board er ec ->
  cell (board g) sr sc = piece_of (turn g) "P" ->
  is_valid_move g start end_ = Ret true ->
  (er = sr + forward (turn g) /\ Z.abs (ec - sc) <= 1)
  \/ (sr = home_row (turn g) /\ er = sr + 2 * forward (turn g) /\ ec = sc).
Proof.
  intros Hwf Hs He H1 H2 Hp Hv.
  assert (sr <> er \/ sc <> ec) as Hne.
  { destruct (Z.eq_dec sr er) as [->|]; [|left; assumption].
    destruct (Z.eq_dec sc ec) as [->|]; [|right; assumption].
    rewrite (convert_to_indices_inj _ _ _ Hs He) in Hv.
    rewrite (null_move_rejected g end_ er ec Hwf He H1) in Hv. discriminate. }
  rewrite (pawn_legal g Hwf start end_ sr sc er ec) in Hv by assumption.
  injection Hv as Hv.
  rewrite !orb_true_iff, !andb_true_iff, !Z.eqb_eq in Hv.
  destruct Hv as [[Hv|Hv]|Hv]; [right | left | left]; lia.
Qed.

Lemma pawn_only_advances_witness :
  wf_game init
  /\ ((4 = 6 + forward WHITE /\ Z.abs (4 - 4) <= 1)
      \/ (6 = home_row WHITE /\ 4 = 6 + 2 * forward WHITE /\ 4 = 4)).
Proof.
  assert (on_board 6 4 /\ on_board 4 4) as (O1 & O2) by (unfold on_board; lia).
  split; [apply wf_init|].
  exact (pawn_only_advances init "e2" "e4" 6 4 4 4
           wf_init eq_refl eq_refl O1 O2 eq_refl eq_refl).
Defined.

(** ** Further properties: indices off the board *)

Lemma py_index_indexable {A} (l : list A) i :
  length l = 8%nat -> indexable i -> exists x, py_index l i = Ret x /\ x ∈ l.
Proof.
  intros Hl Hi. unfold py_index, py_norm. rewrite Hl.
  change (Z.of_nat 8) with 8. unfold indexable in Hi.
  destruct (Z.leb_spec 0 i), (Z.ltb_spec i 8); cbn [andb]; try lia.
  - destruct (lookup_lt_is_Some_2 l (Z.to_nat i)) as [x Hx]; [lia|].
    rewrite Hx. exists x. split; [reflexivity|].
    apply list_elem_of_lookup. eauto.
  - destruct (Z.leb_spec (Z.opp 8) i), (Z.ltb_spec i 0); cbn [andb]; try lia.
    destruct (lookup_lt_is_Some_2 l (Z.to_nat (8 + i))) as [x Hx]; [lia|].
    rewrite Hx. exists x. split; [reflexivity|].
    apply list_elem_of_lookup. eauto.
Qed.

Lemma py_index_not_indexable {A} (l : list A) i :
  length l = 8%nat -> ~ indexable i -> py_index l i = Raise IndexError.
Proof.
  intros Hl Hi. unfold py_index, py_norm. rewrite Hl.
  change (Z.of_nat 8) with 8. unfold indexable in Hi.
  destruct (Z.leb_spec 0 i), (Z.ltb_spec i 8), (Z.leb_spec (Z.opp 8) i), (Z.ltb_spec i 0);
    cbn [andb]; try lia; reflexivity.
Qed.

Lemma getitem2_indexable b r c :
  wf_board b -> indexable r -> indexable c -> exists x, getitem2 b r c = Ret x.
Proof.
  intros [Hl Hrows] Hr Hc. unfold getitem2.
  destruct (py_index_indexable b r Hl Hr) as (row & -> & Hin). cbn [rbind].
  rewrite Forall_forall in Hrows.
  destruct (py_index_indexable row c (Hrows row Hin) Hc) as (x & -> & _).
  eauto.
Qed.

Lemma getitem2_not_indexable b r c :
  wf_board b -> ~ (indexable r /\ indexable c) ->
  getitem2 b r c = Raise IndexError.
Proof.
  intros [Hl Hrows] Hn. unfold getitem2.
  assert (indexable r \/ ~ indexable r) as [Hr|Hr] by (unfold indexable; lia).
  - destruct (py_index_indexable b r Hl Hr) as (row & -> & Hin). cbn [rbind].
    rewrite Forall_forall in Hrows.
    apply py_index_not_indexable; [apply Hrows, Hin | tauto].
  - rewrite py_index_not_indexable by assumption. reflexivity.
Qed.

(** X8.  Indices off the board, while the game is unfinished.  The board is
    read before the bounds test, with Python's list indexing: when all four
    indices lie in -8..7 but not all lie on the board, the negative ones wrap
    around, the bounds test is reached, and [make_move] answers [False];
    when one of them lies outside -8..7, [make_move] raises [IndexError].
    The instance is unchanged in both cases. *)
Theorem off_board_indices g start end_ sr sc er ec :
  wf_game g -> game_state g = UNFINISHED ->
  convert_to_indices start = Ret (sr, sc) ->
  convert_to_indices end_ = Ret (er, ec) ->
  ~ (on_board sr sc /\ on_board er ec) ->
  (indexable sr /\ indexable sc /\ indexable er /\ indexable ec ->
   make_move start end_ g = (Ret false, g))
  /\ (~ (indexable sr /\ indexable sc /\ indexable er /\ indexable ec) ->
      make_move start end_ g = (Raise IndexError, g)).
Proof.
  intros Hwf Hgs Hs He Hoff. split.
  - intros (I1 & I2 & I3 & I4).
    assert (is_valid_move g start end_ = Ret false) as Hv.
    { unfold is_valid_move. rewrite Hs, He. cbn [rbind].
      destruct (getitem2_indexable (board g) sr sc Hwf I1 I2) as [x ->].
      destruct (getitem2_indexable (board g) er ec Hwf I3 I4) as [y ->].
      cbn [rbind].
      destruct (_ || _); [reflexivity|].
      assert (in_range sr && in_range sc && in_range er && in_range ec = false) as ->.
      { apply not_true_is_false. rewrite !andb_true_iff, !in_range_spec.
        unfold on_board in Hoff. tauto. }
      rewrite orb_true_r. reflexivity. }
    rewrite make_move_rejected by (assumption || (rewrite Hv; discriminate)).
    rewrite Hv. reflexivity.
  - intros Hn.
    assert (is_valid_move g start end_ = Raise IndexError) as Hv.
    { unfold is_valid_move. rewrite Hs, He. cbn [rbind].
      assert ((indexable sr /\ indexable sc) \/ ~ (indexable sr /\ indexable sc))
        as [[I1 I2]|H1] by (unfold indexable; lia).
      - destruct (getitem2_indexable (board g) sr sc Hwf I1 I2) as [x ->].
        cbn [rbind]. rewrite getitem2_not_indexable by (assumption || tauto).
        reflexivity.
      - rewrite getitem2_not_indexable by assumption. reflexivity. }
    rewrite make_move_rejected by (assumption || (rewrite Hv; discriminate)).
    rewrite Hv. reflexivity.
Qed.

Lemma off_board_indices_witness :
  wf_game init
  /\ convert_to_indices "a9" = Ret (-1, 0)
  /\ make_move "a9" "a1" init = (Ret false, init)
  /\ convert_to_indices "a0" = Ret (8, 0)
  /\ make_move "a0" "a1" init = (Raise IndexError, init).
Proof.
  assert (~ (on_board (-1) 0 /\ on_board 7 0)) as N1 by (unfold on_board; lia).
  assert (~ (on_board 8 0 /\ on_board 7 0)) as N2 by (unfold on_board; lia).
  assert (indexable (-1) /\ indexable 0 /\ indexable 7 /\ indexable 0) as I1
    by (unfold indexable; lia).
  assert (~ (indexable 8 /\ indexable 0 /\ indexable 7 /\ indexable 0)) as I2
    by (unfold indexable; lia).
  split; [apply wf_init|]. split; [reflexivity|]. split; [|split; [reflexivity|]].
  - exact (proj1 (off_board_indices init "a9" "a1" (-1) 0 7 0
                    wf_init eq_refl eq_refl eq_refl N1) I1).
  - exact (proj2 (off_board_indices init "a0" "a1" 8 0 7 0
                    wf_init eq_refl eq_refl eq_refl N2) I2).
Defined.

(** ** Further properties: make_move *)

(** X9.  [make_move] answers [True] exactly when the game is unfinished and
    the validator accepts the move. *)
Theorem make_move_true_iff g start end_ :
  wf_game g ->
  ((make_move start end_ g).1 = Ret true
   <-> game_state g = UNFINISHED /\ is_valid_move g start end_ = Ret true).
Proof.
  intros Hwf. split.
  - intros Hr. destruct (make_move_cases g start end_ Hwf)
      as [(H & _ & _)|(sr & sc & er & ec & Hgs & Hv & _)]; [contradiction|].
    split; assumption.
  - intros [Hgs Hv].
    destruct (is_valid_move_cases g start end_ Hwf)
      as [[x Hx]|[Hf|[_ (sr & sc & er & ec & Hs & He & H1 & H2 & _)]]];
      try congruence.
    rewrite (make_move_accepted g start end_ sr sc er ec) by assumption.
    reflexivity.
Qed.

Lemma make_move_true_iff_witness :
  wf_game init /\ (make_move "d2" "d4" init).1 = Ret true.
Proof.
  split; [apply wf_init|].
  exact (proj2 (make_move_true_iff init "d2" "d4" wf_init) (conj eq_refl eq_refl)).
Defined.

Lemma make_move_total_witness :
  wf_game init /\ (make_move "a1" "a8" init).1 <> OutOfFuel.
Proof.
  split; [apply wf_init|]. exact (make_move_total init "a1" "a8" wf_init).
Defined.

Lemma make_move_unchanged_witness :
  wf_game init /\ (make_move "i1" "a1" init).2 = init.
Proof.
  split; [apply wf_init|].
  refine (make_move_unchanged init "i1" "a1" wf_init _).
  vm_compute. discriminate.
Defined.

(** ** Further properties: what an accepted move does to the board *)

Lemma weigh_set_cell f b r c x :
  wf_board b -> on_board r c ->
  (weigh f (set_cell b r c x) + f (cell b r c) = weigh f b + f x)%nat.
Proof.
  intros Hwf Hrc. destruct (wf_cell b r c Hwf Hrc) as (row & Hrow & _ & Hx).
  unfold weigh, set_cell.
  pose proof (sum_list_alter (fun row => sum_list (map f row))
                (fun row => <[Z.to_nat c := x]> row) b _ _ Hrow) as H1.
  pose proof (sum_list_insert f row _ x _ Hx) as H2.
  cbv beta in H1. lia.
Qed.

Lemma weigh_relocate f b sr sc er ec :
  f " "%char = 0%nat -> wf_board b -> on_board sr sc -> on_board er ec ->
  (weigh f (relocate b sr sc er ec) + f (cell b er ec) = weigh f b)%nat.
Proof.
  intros Hf Hwf H1 H2. unfold relocate.
  pose proof (weigh_set_cell f b er ec (cell b sr sc) Hwf H2) as E1.
  pose proof (weigh_set_cell f _ sr sc " " (wf_set_cell b er ec (cell b sr sc) Hwf) H1)
    as E2.
  rewrite cell_set_cell in E2 by assumption. rewrite Hf in E2.
  destruct ((sr =? er) && (sc =? ec)); lia.
Qed.

Lemma weigh_blast_one f row col b d :
  f " "%char = 0%nat -> wf_board b ->
  (weigh f (blast_one row col b d) <= weigh f b)%nat.
Proof.
  intros Hf Hwf. unfold blast_one.
  destruct (in_range (row + d.1)) eqn:E1, (in_range (col + d.2)) eqn:E2;
    cbn [andb]; try lia.
  destruct (negb _); [|lia].
  apply in_range_spec in E1, E2.
  pose proof (weigh_set_cell f b (row + d.1) (col + d.2) " " Hwf (conj E1 E2)).
  lia.
Qed.

Lemma weigh_fold_blast f row col ds : forall b,
  f " "%char = 0%nat -> wf_board b ->
  (weigh f (fold_left (blast_one row col) ds b) <= weigh f b)%nat.
Proof.
  induction ds as [|d ds IH]; intros b Hf Hwf; cbn [fold_left]; [lia|].
  etrans; [apply IH; [assumption | apply wf_blast_one, Hwf]
          | apply weigh_blast_one; assumption].
Qed.

Lemma weigh_explode f b row col :
  f " "%char = 0%nat -> wf_board b -> on_board row col ->
  (weigh f (explode_board b row col) + f (cell b row col) <= weigh f b)%nat.
Proof.
  intros Hf Hwf Hc. unfold explode_board.
  pose proof (weigh_fold_blast f row col directions (set_cell b row col " ") Hf
                (wf_set_cell b row col " " Hwf)).
  pose proof (weigh_set_cell f b row col " " Hwf Hc). lia.
Qed.

Lemma weigh_moved_board f b sr sc er ec :
  f " "%char = 0%nat -> wf_board b -> on_board sr sc -> on_board er ec ->
  sr <> er \/ sc <> ec ->
  (weigh f (moved_board b sr sc er ec) + f (cell b er ec)
   + (if is_blank (cell b er ec) then 0 else f (cell b sr sc)) <= weigh f b)%nat.
Proof.
  intros Hf Hwf H1 H2 Hne. unfold moved_board.
  pose proof (weigh_relocate f b sr sc er ec Hf Hwf H1 H2) as E.
  destruct (is_blank (cell b er ec)); [lia|].
  pose proof (weigh_explode f _ er ec Hf (wf_relocate b sr sc er ec Hwf) H2) as E'.
  rewrite relocate_cell in E' by assumption.
  destruct H1, H2.
  destruct (Z.eqb_spec er sr), (Z.eqb_spec ec sc); cbn [andb] in E'; try lia;
    rewrite !Z.eqb_refl in E'; cbn [andb] in E'; lia.
Qed.

(** X12.  An accepted move onto an empty square only relocates the piece: the
    destination then holds the piece that stood on the start square, the
    start square is empty, every other square of the board is as it was,
    and the number of occupied cells is unchanged. *)
Theorem quiet_move g start end_ sr sc er ec :
  wf_game g ->
  convert_to_indices start = Ret (sr, sc) ->
  convert_to_indices end_ = Ret (er, ec) ->
  is_blank (cell (board g) er ec) = true ->
  (make_move start end_ g).1 = Ret true ->
  let after := board (make_move start end_ g).2 in
  cell after er ec = cell (board g) sr sc
  /\ cell after sr sc = " "%char
  /\ (forall r c, on_board r c -> (r <> sr \/ c <> sc) -> (r <> er \/ c <> ec) ->
                  cell after r c = cell (board g) r c)
  /\ occupied after = occupied (board g).
Proof.
  intros Hwf Hs He Hb Hr after.
  destruct (make_move_cases g start end_ Hwf)
    as [(H & _ & _)|(sr' & sc' & er' & ec' & _ & _ & Hs' & He' & H1 & H2 & Hne & _ & E)];
    [contradiction|].
  rewrite Hs in Hs'. rewrite He in He'.
  injection Hs' as <- <-. injection He' as <- <-.
  assert (after = relocate (board g) sr sc er ec) as ->.
  { subst after. rewrite E. cbn [snd after_move board]. unfold moved_board.
    rewrite Hb. reflexivity. }
  repeat split.
  - rewrite relocate_cell by assumption. destruct H1, H2.
    destruct (Z.eqb_spec er sr), (Z.eqb_spec ec sc); cbn [andb]; try lia;
      rewrite !Z.eqb_refl; reflexivity.
  - rewrite relocate_cell by assumption. rewrite !Z.eqb_refl. reflexivity.
  - intros r c Hrc Hn1 Hn2. rewrite relocate_cell by assumption.
    destruct (Z.eqb_spec r sr), (Z.eqb_spec c sc), (Z.eqb_spec r er), (Z.eqb_spec c ec);
      cbn [andb]; try lia; reflexivity.
  - pose proof (occupied_relocate (board g) sr sc er ec Hwf H1 H2) as Ho.
    apply is_blank_spec in Hb. rewrite Hb in Ho.
    change (occ " ") with 0%nat in Ho. lia.
Qed.

Lemma quiet_move_witness :
  wf_game init
  /\ cell (board (make_move "d2" "d4" init).2) 4 3 = "P"%char
  /\ cell (board (make_move "d2" "d4" init).2) 6 3 = " "%char
  /\ occupied (board (make_move "d2" "d4" init).2) = occupied (board init).
Proof.
  pose proof (quiet_move init "d2" "d4" 6 3 4 3
                wf_init eq_refl eq_refl eq_refl eq_refl) as (H1 & H2 & _ & H4).
  split; [apply wf_init|]. split; [exact H1|]. split; [exact H2 | exact H4].
Defined.

(** X13.  After every accepted move the start square is empty, whether or not
    the move captured. *)
Theorem source_vacated g start end_ sr sc :
  wf_game g ->
  convert_to_indices start = Ret (sr, sc) ->
  (make_move start end_ g).1 = Ret true ->
  cell (board (make_move start end_ g).2) sr sc = " "%char.
Proof.
  intros Hwf Hs Hr.
  destruct (make_move_cases g start end_ Hwf)
    as [(H & _ & _)|(sr' & sc' & er & ec & _ & _ & Hs' & He & H1 & H2 & Hne & _ & E)];
    [contradiction|].
  rewrite Hs in Hs'. injection Hs' as <- <-.
  rewrite E. cbn [snd after_move board]. unfold moved_board.
  assert (cell (relocate (board g) sr sc er ec) sr sc = " "%char) as Hrel.
  { rewrite relocate_cell by assumption. rewrite !Z.eqb_refl. reflexivity. }
  destruct (is_blank (cell (board g) er ec)); [exact Hrel|].
  rewrite explode_cell by (assumption || apply wf_relocate, Hwf).
  rewrite Hrel.
  destruct ((sr =? er) && (sc =? ec)); [reflexivity|].
  destruct (_ && _); reflexivity.
Qed.

Lemma source_vacated_witness :
  wf_game before_blast
  /\ cell (board (make_move "c2" "d3" before_blast).2) 6 2 = " "%char.
Proof.
  assert (wf_game before_blast) as Hwf
    by (split; [reflexivity | vm_compute; repeat constructor]).
  split; [exact Hwf|].
  exact (source_vacated before_blast "c2" "d3" 6 2 Hwf eq_refl eq_refl).
Defined.

(** X14.  Every accepted capture removes at least two pieces from the board:
    the captured piece and the capturing piece. *)
Theorem capture_removes_two g start end_ er ec :
  wf_game g ->
  convert_to_indices end_ = Ret (er, ec) ->
  is_blank (cell (board g) er ec) = false ->
  (make_move start end_ g).1 = Ret true ->
  (occupied (board (make_move start end_ g).2) + 2 <= occupied (board g))%nat.
Proof.
  intros Hwf He Hocc Hr.
  destruct (make_move_cases g start end_ Hwf)
    as [(H & _ & _)|(sr & sc & er' & ec' & _ & _ & Hs & He' & H1 & H2 & Hne & Hp & E)];
    [contradiction|].
  rewrite He in He'. injection He' as <- <-.
  rewrite E. cbn [snd after_move board].
  pose proof (weigh_moved_board occ (board g) sr sc er ec eq_refl Hwf H1 H2 Hne) as Hw.
  rewrite Hocc in Hw. unfold occ at 2 3 in Hw. rewrite Hocc, Hp in Hw.
  change (weigh occ) with occupied in Hw. lia.
Qed.

Lemma capture_removes_two_witness :
  wf_game before_blast
  /\ (occupied (board (make_move "c2" "d3" before_blast).2) + 2
      <= occupied (board before_blast))%nat.
Proof.
  assert (wf_game before_blast) as Hwf
    by (split; [reflexivity | vm_compute; repeat constructor]).
  split; [exact Hwf|].
  exact (capture_removes_two before_blast "c2" "d3" 5 3 Hwf eq_refl eq_refl eq_refl).
Defined.

(** X15.  The game state an accepted move leaves: the win of the side that
    moved when a king is missing from the board afterwards, and the state
    before the move (unfinished) otherwise. *)
Theorem game_state_after_move g start end_ :
  wf_game g -> (make_move start end_ g).1 = Ret true ->
  game_state (make_move start end_ g).2
  = if king_missing (board (make_move start end_ g).2)
    then win_of (turn g) else UNFINISHED.
Proof.
  intros Hwf Hr. destruct (make_move_cases g start end_ Hwf)
    as [(H & _ & _)|(sr & sc & er & ec & Hgs & _ & _ & _ & _ & _ & _ & _ & E)];
    [contradiction|].
  rewrite E. cbn [snd after_move board game_state]. rewrite Hgs. reflexivity.
Qed.

Lemma game_state_after_move_witness :
  wf_game init /\ game_state (make_move "b1" "d2" init).2 = WHITE_WON.
Proof.
  split; [apply wf_init|].
  exact (game_state_after_move init "b1" "d2" wf_init eq_refl).
Defined.

(** ** Further properties: invariants of an instance *)

(** X16.  The board of an instance stays an 8x8 grid, whatever calls of
    [make_move] are made on it, accepted, rejected or raising. *)
Theorem board_stays_8x8 g :
  reachable g ->
  length (board g) = 8%nat /\ Forall (fun row => length row = 8%nat) (board g).
Proof. intros H. exact (reachable_wf g H). Qed.

Lemma board_stays_8x8_witness :
  reachable after_blast /\ length (board after_blast) = 8%nat.
Proof.
  assert (forall ms g, reachable g -> reachable (play ms g).2) as Hplay.
  { induction ms as [|[s e] ms IH]; intros g Hg; [exact Hg|].
    cbn [play]. unfold mbind.
    pose proof (reachable_move g s e Hg) as Hm.
    destruct (make_move s e g) as [[r| |] g1]; cbn [snd] in *; try exact Hm.
    specialize (IH g1 Hm).
    destruct (play ms g1) as [[rs| |] g2]; cbn [snd] in *; exact IH. }
  assert (reachable after_blast) as Hr by (apply Hplay, reachable_init).
  split; [exact Hr|]. exact (proj1 (board_stays_8x8 after_blast Hr)).
Defined.












(** ** Further properties: sequences of calls *)

(** X21.  A finished game is frozen: whatever sequence of calls of
    [make_move] follows, each answers [False], none raises, and board, turn
    and game state stay as they are. *)
Theorem finished_game_frozen g ms :
  game_state g <> UNFINISHED ->
  play ms g = (Ret (map (fun _ => false) ms), g).
Proof.
  intros Hgs. induction ms as [|[s e] ms IH]; [reflexivity|].
  cbn [play map]. unfold mbind at 1. rewrite make_move_finished by assumption.
  unfold mbind. rewrite IH. reflexivity.
Qed.

Lemma finished_game_frozen_witness :
  game_state after_blast <> UNFINISHED
  /\ play [("a7", "a6"); ("a0", "zz")]%string after_blast
     = (Ret [false; false], after_blast).
Proof.
  assert (game_state after_blast <> UNFINISHED) as H by (vm_compute; discriminate).
  split; [exact H|].
  exact (finished_game_frozen after_blast [("a7", "a6"); ("a0", "zz")]%string H).
Defined.

Lemma other_involutive t : other (other t) = t.
Proof. destruct t; reflexivity. Qed.

(** X22.  Over a sequence of calls none of which raises, the turn is with the
    side that started iff the number of [True] answers is even. *)
Theorem turn_follows_accepted_moves ms : forall g rs,
  wf_game g -> (play ms g).1 = Ret rs ->
  turn (play ms g).2
  = if Nat.even (count_true rs) then turn g else other (turn g).
Proof.
  induction ms as [|[s e] ms IH]; intros g rs Hwf Hr.
  - cbn in Hr. injection Hr as <-. reflexivity.
  - cbn [play] in *. unfold mbind in *.
    pose proof (make_move_wf g s e Hwf) as Hwf'.
    destruct (make_move_cases g s e Hwf)
      as [(Hn & _ & Hg)|(sr & sc & er & ec & _ & _ & _ & _ & _ & _ & _ & _ & E)].
    + destruct (make_move s e g) as [[[|]| |] g1] eqn:Em; cbn [fst snd] in *;
        try discriminate; try (contradiction Hn; reflexivity).
      subst g1. specialize (IH g).
      destruct (play ms g) as [[rs'| |] g2]; cbn [fst snd mret] in *;
        try discriminate.
      injection Hr as <-. exact (IH rs' Hwf eq_refl).
    + rewrite E in *. cbn [fst snd] in *.
      specialize (IH (after_move g sr sc er ec)).
      destruct (play ms (after_move g sr sc er ec)) as [[rs'| |] g2];
        cbn [fst snd mret] in *; try discriminate.
      injection Hr as <-. rewrite (IH rs' Hwf' eq_refl).
      cbn [after_move turn].
      change (count_true (true :: rs')) with (S (count_true rs')).
      rewrite Nat.even_succ, <- Nat.negb_even.
      destruct (Nat.even (count_true rs')); cbn [negb];
        [reflexivity | apply other_involutive].
Qed.

Lemma turn_follows_accepted_moves_witness :
  wf_game init
  /\ turn (play [("d2", "d4"); ("d7", "d6"); ("d4", "d6"); ("e2", "e4")]%string init).2
     = BLACK.
Proof.
  split; [apply wf_init|].
  exact (turn_follows_accepted_moves
           [("d2", "d4"); ("d7", "d6"); ("d4", "d6"); ("e2", "e4")]%string
           init [true; true; false; true] wf_init eq_refl).
Defined.

(** ** Further properties: the king scan and the printed board *)

Lemma king_present_iff k b :
  wf_board b ->
  (king_present k b = true <-> exists r c, on_board r c /\ cell b r c = k).
Proof.
  intros [Hl Hrows]. unfold king_present, list_in. split.
  - intros H. apply existsb_exists in H as (row & Hrow & H).
    apply existsb_exists in H as (y & Hy & H). apply Ascii.eqb_eq in H. subst y.
    apply list_elem_of_In, list_elem_of_lookup in Hrow as [i Hi].
    apply list_elem_of_In, list_elem_of_lookup in Hy as [j Hj].
    pose proof (lookup_lt_Some _ _ _ Hi) as Li.
    pose proof (lookup_lt_Some _ _ _ Hj) as Lj.
    rewrite Forall_lookup in Hrows. rewrite (Hrows i row Hi) in Lj.
    exists (Z.of_nat i), (Z.of_nat j). split; [unfold on_board; lia|].
    unfold cell. rewrite !Nat2Z.id, Hi. cbn. rewrite Hj. reflexivity.
  - intros (r & c & Hrc & Hk).
    destruct (wf_cell b r c (conj Hl Hrows) Hrc) as (row & Hrow & _ & Hx).
    apply existsb_exists. exists row. split.
    + apply list_elem_of_In, list_elem_of_lookup. eauto.
    + apply existsb_exists. exists (cell b r c). split.
      * apply list_elem_of_In, list_elem_of_lookup. eauto.
      * apply Ascii.eqb_eq. symmetry. exact Hk.
Qed.

(** X23.  [_is_king_captured] answers [False] exactly when some square of the
    board holds the white king and some square holds the black king. *)
Theorem is_king_captured_iff g :
  wf_game g ->
  (is_king_captured g = false
   <-> (exists r c, on_board r c /\ cell (board g) r c = "K"%char)
       /\ (exists r c, on_board r c /\ cell (board g) r c = "k"%char)).
Proof.
  intros Hwf. rewrite is_king_captured_spec. unfold king_missing.
  rewrite orb_false_iff, !negb_false_iff, !king_present_iff by assumption.
  reflexivity.
Qed.

Lemma is_king_captured_iff_witness :
  wf_game init /\ is_king_captured init = false.
Proof.
  assert (on_board 7 4 /\ on_board 0 4) as (O1 & O2) by (unfold on_board; lia).
  split; [apply wf_init|].
  apply (proj2 (is_king_captured_iff init wf_init)). split.
  - exists 7, 4. split; [exact O1 | reflexivity].
  - exists 0, 4. split; [exact O2 | reflexivity].
Defined.

Lemma py_join_length (row : list ascii) :
  String.length (py_join " " (map (fun x => String x EmptyString) row))
  = (2 * length row - 1)%nat.
Proof.
  induction row as [|x row IH]; [reflexivity|].
  destruct row as [|y row]; [reflexivity|].
  change (py_join " " (map (fun x => String x EmptyString) (x :: y :: row)))
    with (String x (String " "
            (py_join " " (map (fun x => String x EmptyString) (y :: row))))).
  cbn [String.length]. rewrite IH. cbn [length]. lia.
Qed.

Lemma py_join_get (row : list ascii) : forall i x,
  row !! i = Some x ->
  String.get (2 * i) (py_join " " (map (fun x => String x EmptyString) row)) = Some x
  /\ (S i < length row ->
      String.get (2 * i + 1) (py_join " " (map (fun x => String x EmptyString) row))
      = Some " "%char)%nat.
Proof.
  induction row as [|a row IH]; intros i x Hi; [discriminate|].
  destruct row as [|y row].
  - destruct i; [|discriminate]. injection Hi as ->.
    split; [reflexivity | cbn [length]; lia].
  - change (py_join " " (map (fun x => String x EmptyString) (a :: y :: row)))
      with (String a (String " "
              (py_join " " (map (fun x => String x EmptyString) (y :: row))))).
    destruct i as [|i].
    + injection Hi as ->. split; reflexivity.
    + replace (2 * S i)%nat with (S (S (2 * i))) by lia.
      replace (S (S (2 * i)) + 1)%nat with (S (S (2 * i + 1))) by lia.
      cbn [String.get]. destruct (IH i x Hi) as [H1 H2].
      split; [exact H1|]. intros Hlt. apply H2. cbn [length] in *. lia.
Qed.

(** X24.  [print_board] writes nine lines: one line of fifteen characters for
    each row, top row first, then an empty line.  In the line of row [r] the
    character at position [2c] is the cell of column [c] and the characters
    between the cells are single spaces. *)
Theorem print_board_renders g :
  wf_game g ->
  length (print_board g) = 9%nat
  /\ print_board g !! 8%nat = Some EmptyString
  /\ forall r c, on_board r c ->
       exists line,
         print_board g !! Z.to_nat r = Some line
         /\ String.length line = 15%nat
         /\ String.get (2 * Z.to_nat c) line = Some (cell (board g) r c)
         /\ (c < 7 -> String.get (2 * Z.to_nat c + 1) line = Some " "%char).
Proof.
  intros Hwf. pose proof Hwf as [Hl Hrows]. unfold print_board.
  split; [rewrite length_app, length_map, Hl; reflexivity|]. split.
  - rewrite lookup_app_r by (rewrite length_map, Hl; lia).
    rewrite length_map, Hl. reflexivity.
  - intros r c Hrc.
    destruct (wf_cell (board g) r c Hwf Hrc) as (row & Hrow & Hlen & Hx).
    exists (py_join " " (map (fun x => String x EmptyString) row)).
    destruct (py_join_get row _ _ Hx) as [G1 G2].
    split; [|split; [|split]].
    + rewrite lookup_app_l by (rewrite length_map, Hl; destruct Hrc; lia).
      change (@map (list ascii) string) with (@fmap list _ (list ascii) string).
      rewrite list_lookup_fmap, Hrow. reflexivity.
    + rewrite py_join_length, Hlen. reflexivity.
    + exact G1.
    + intros Hc. apply G2. destruct Hrc. lia.
Qed.

Lemma print_board_renders_witness :
  wf_game init
  /\ length (print_board init) = 9%nat
  /\ exists line, print_board init !! 7%nat = Some line
                  /\ String.get 8 line = Some "K"%char.
Proof.
  assert (on_board 7 4) as O by (unfold on_board; lia).
  destruct (print_board_renders init wf_init) as (H1 & _ & H3).
  destruct (H3 7 4 O) as (line & L1 & _ & L3 & _).
  split; [apply wf_init|]. split; [exact H1|].
  exists line. split; [exact L1 | exact L3].
Defined.

(** X25.  With its centre anywhere on the board, an edge or a corner included,
    [_handle_explosion] never raises, keeps the board an 8x8 grid, and
    changes neither the turn nor the game state: it never declares a
    winner. *)
Theorem explosion_changes_board_only g row col :
  wf_game g -> on_board row col ->
  (handle_explosion row col g).1 = Ret tt
  /\ wf_game (handle_explosion row col g).2
  /\ turn (handle_explosion row col g).2 = turn g
  /\ game_state (handle_explosion row col g).2 = game_state g.
Proof.
  intros Hwf Hc. rewrite handle_explosion_wf by assumption.
  split; [reflexivity|]. split; [|split; reflexivity].
  exact (wf_explode_board (board g) row col Hwf).
Qed.

Lemma explosion_changes_board_only_witness :
  wf_game init
  /\ (handle_explosion 0 0 init).1 = Ret tt
  /\ game_state (handle_explosion 7 4 init).2 = UNFINISHED.
Proof.
  assert (on_board 0 0 /\ on_board 7 4) as (O1 & O2) by (unfold on_board; lia).
  split; [apply wf_init|]. split.
  - exact (proj1 (explosion_changes_board_only init 0 0 wf_init O1)).
  - exact (proj2 (proj2 (proj2 (explosion_changes_board_only init 7 4 wf_init O2)))).
Defined.
